(** * toAlgo.py: batch conversion of algorithm images to LaTeX

    A shallow embedding of [src/ba4/algorithms-final-cheatsheet/toAlgo.py]
    (class [AlgorithmImageConverter] and [main]) together with the
    properties of its discovery, sanitizing and batch stages.

    Python strings are sequences of Unicode code points; they are modelled
    as lists of code points ([N]).  The file system, the environment and
    the remote completion service are gathered in a record [World]; the
    effects of the program (console lines, file reads, network calls, file
    writes) are threaded through an explicit state with a trace, and a
    Python exception that is not caught is the [Raise] outcome. *)

From Stdlib Require Import NArith Ascii String.
From stdpp Require Import base list sorting gmap pretty strings.

Local Open Scope N_scope.
Local Open Scope list_scope.

(** ** Python strings *)

Abbreviation pystr := (list N).

(** The code points of an ASCII literal. *)
Fixpoint py (s : string) : pystr :=
  match s with
  | EmptyString => []
  | String a t => N_of_ascii a :: py t
  end.

(** [str.isspace] on one code point: the table [_PyUnicode_IsWhitespace]
    of CPython. *)
Definition isspace (c : N) : bool :=
  ((9 <=? c) && (c <=? 13)) || ((28 <=? c) && (c <=? 32))
  || (c =? 133) || (c =? 160) || (c =? 5760)
  || ((8192 <=? c) && (c <=? 8202))
  || (c =? 8232) || (c =? 8233) || (c =? 8239) || (c =? 8287)
  || (c =? 12288).

(** [s.startswith(pre)] *)
Fixpoint startswith (pre s : pystr) : bool :=
  match pre, s with
  | [], _ => true
  | _ :: _, [] => false
  | a :: pre', b :: s' => (a =? b) && startswith pre' s'
  end.

(** [s.endswith(suf)] *)
Definition endswith (suf s : pystr) : bool :=
  startswith (reverse suf) (reverse s).

(** [s.lstrip()], [s.rstrip()] and [s.strip()] with no argument: leading and
    trailing whitespace is dropped. *)
Fixpoint lstrip (s : pystr) : pystr :=
  match s with
  | [] => []
  | c :: t => if isspace c then lstrip t else s
  end.

Definition rstrip (s : pystr) : pystr := reverse (lstrip (reverse s)).

Definition strip (s : pystr) : pystr := rstrip (lstrip s).

(** [lit in s]: the literal occurs somewhere in [s]. *)
Fixpoint occurs (lit s : pystr) : bool :=
  startswith lit s ||
  match s with
  | [] => false
  | _ :: t => occurs lit t
  end.

(** Truthiness of an optional string: [None] and the empty string are
    falsy. *)
Definition truthy (o : option pystr) : bool :=
  match o with
  | None | Some [] => false
  | Some (_ :: _) => true
  end.

(** ** The regular expressions of the sanitizer

    Both patterns of [clean_latex_output] have the shape [lit\n?]: a literal
    followed by an optional (greedy) newline.  [re.sub(pattern, '', s)]
    scans [s] from the left and deletes every non-overlapping match.
    [sub_from lit skip s] is that scan: [skip] counts the characters of the
    current match that are still to be deleted. *)

Definition newline : N := 10.

Fixpoint sub_from (lit : pystr) (skip : nat) (s : pystr) : pystr :=
  match s with
  | [] => []
  | c :: t =>
      match skip with
      | S k => sub_from lit k t
      | O =>
          if startswith (lit ++ [newline]) s then sub_from lit (length lit) t
          else if startswith lit s then sub_from lit (pred (length lit)) t
          else c :: sub_from lit 0 t
      end
  end.

(** [re.sub(lit + r'\n?', '', s)] for a non-empty literal [lit]. *)
Definition re_sub_opt_newline (lit s : pystr) : pystr := sub_from lit 0 s.

Definition fence : pystr := Eval cbv in py "```".
Definition fence_latex : pystr := Eval cbv in py "```latex".

(** ** [clean_latex_output] *)

Definition clean_latex_output (latex_code : option pystr) : option pystr :=
  if negb (truthy latex_code) then None
  else
    match latex_code with
    | None => None
    | Some code =>
        let code := re_sub_opt_newline fence_latex code in
        let code := re_sub_opt_newline fence code in
        Some (strip code)
    end.

(** ** Paths

    Every path the program handles is [images/<name>] or [codes/<name>];
    a path inside one of the two directories is represented by its last
    component. *)

Definition dot : N := 46.

(** [s.rfind(c)]; [None] stands for the result [-1]. *)
Fixpoint rfind (c : N) (s : pystr) : option nat :=
  match s with
  | [] => None
  | x :: t =>
      match rfind c t with
      | Some i => Some (S i)
      | None => if x =? c then Some O else None
      end
  end.

(** [PurePath.suffix] and [PurePath.stem] (pathlib): the name is split at
    its last dot unless that dot is the first or the last character. *)
Definition path_suffix (name : pystr) : pystr :=
  match rfind dot name with
  | Some i =>
      if (Nat.ltb 0 i && Nat.ltb i (length name - 1))%nat then drop i name
      else []
  | None => []
  end.

Definition path_stem (name : pystr) : pystr :=
  match rfind dot name with
  | Some i =>
      if (Nat.ltb 0 i && Nat.ltb i (length name - 1))%nat then take i name
      else name
  | None => name
  end.

(** [str(self.images_dir / name)] and [str(self.codes_dir / name)] *)
Definition images_path (name : pystr) : pystr := py "images/" ++ name.
Definition codes_path (name : pystr) : pystr := py "codes/" ++ name.

(** Comparison of two paths of one directory ([PurePath.__lt__] compares the
    lists of parts, that is the names, code point by code point). *)
Fixpoint str_leb (a b : pystr) : bool :=
  match a, b with
  | [], _ => true
  | _ :: _, [] => false
  | x :: a', y :: b' =>
      if x <? y then true else if y <? x then false else str_leb a' b'
  end.

Definition path_le (a b : pystr) : Prop := str_leb a b = true.

Global Instance path_le_dec : RelDecision path_le.
Proof. intros a b. unfold path_le. apply _. Defined.

(** [sorted(paths)] *)
Definition sorted (paths : list pystr) : list pystr := merge_sort path_le paths.

(** [str.lower] on the ASCII letters.  The only keys looked up after
    lowering are the ASCII keys of [mime_types]; no code point outside
    ASCII lowers to a letter of one of these keys. *)
Definition lower_char (c : N) : N :=
  if (65 <=? c) && (c <=? 90) then c + 32 else c.

Definition lower (s : pystr) : pystr := map lower_char s.

(** ** Encoding *)

Definition b64char (i : N) : N :=
  if i <? 26 then 65 + i
  else if i <? 52 then 97 + (i - 26)
  else if i <? 62 then 48 + (i - 52)
  else if i =? 62 then 43
  else 47.

Definition pad : N := 61.

(** [base64.b64encode(bytes).decode('utf-8')] *)
Fixpoint b64encode (bytes : list N) : pystr :=
  match bytes with
  | [] => []
  | [a] => [b64char (a / 4); b64char ((a mod 4) * 16); pad; pad]
  | [a; b] =>
      [b64char (a / 4); b64char ((a mod 4) * 16 + b / 16);
       b64char ((b mod 16) * 4); pad]
  | a :: b :: c :: rest =>
      b64char (a / 4) :: b64char ((a mod 4) * 16 + b / 16)
      :: b64char ((b mod 16) * 4 + c / 64) :: b64char (c mod 64)
      :: b64encode rest
  end.

(** [self.supported_formats] (a Python set) *)
Definition supported_formats : list pystr :=
  [py ".png"; py ".jpg"; py ".jpeg"; py ".gif"; py ".webp"].

Definition mime_types : list (pystr * pystr) :=
  [(py ".png", py "image/png"); (py ".jpg", py "image/jpeg");
   (py ".jpeg", py "image/jpeg"); (py ".gif", py "image/gif");
   (py ".webp", py "image/webp")].

(** [d.get(key, default)] *)
Fixpoint dict_get (d : list (pystr * pystr)) (key default : pystr) : pystr :=
  match d with
  | [] => default
  | (k, v) :: d' => if bool_decide (k = key) then v else dict_get d' key default
  end.

Definition get_image_mime_type (name : pystr) : pystr :=
  let suffix := lower (path_suffix name) in
  dict_get mime_types suffix (py "image/png").

(** ** The world and the effects *)

Record request := {
  model : pystr;
  text : pystr;
  image_url : pystr;
  detail : pystr
}.

Inductive exn :=
| OSError (path : pystr)
| OpenAIError
| UnicodeEncodeError (line : pystr).

(** What happens when [codes/<name>] is opened with mode ['w'] and a text
    is written to it and the file closed.  [OpenError]: [open] raises and
    the file is not touched.  [WriteError partial]: [open] has created or
    truncated the file, then writing or closing raises (the disk is full,
    the text cannot be encoded in UTF-8, ...); the file holds [partial].  In
    both cases [msg] is [str(e)]. *)
Inductive write_result :=
| Written
| OpenError (msg : pystr)
| WriteError (partial msg : pystr).

Record World := {
  (** [os.getenv('OPENAI_API_KEY')] *)
  getenv_api_key : option pystr;
  (** the working directory, for [Path.absolute] *)
  cwd : pystr;
  (** [self.images_dir.exists()] *)
  images_exists : bool;
  (** the names of the entries of [images/], as the directory scan yields
      them *)
  images_entries : list pystr;
  (** the order in which iterating the set [self.supported_formats] yields
      its elements *)
  formats_order : list pystr;
  (** the content of [images/<name>]; [None] when opening or reading it
      raises *)
  read_bytes : pystr → option (list N);
  (** [client.chat.completions.create(...)] followed by
      [.choices[0].message.content]: the content, or the text of the
      exception raised inside the [try] block *)
  chat_create : request → pystr + pystr;
  (** writing the given text to [codes/<name>] *)
  write_outcome : pystr → pystr → write_result;
  (** the code points outside ASCII that the encoding of the console has *)
  console_encodes : N → bool;
  (** [str(e)] for the [UnicodeEncodeError] that printing a line raises *)
  encode_error_text : pystr → pystr;
  (** [self.codes_dir.mkdir(exist_ok=True)] raises *)
  mkdir_raises : bool
}.

Inductive event :=
| Print (line : pystr)
| ReadFile (name : pystr)
| ChatRequest (req : request)
| WriteFile (name : pystr) (body : pystr)
| PartialWrite (name : pystr) (partial : pystr)
| Mkdir.

Record state := {
  (** the regular files of [codes/] *)
  codes : gmap pystr pystr;
  trace : list event
}.

Inductive outcome (A : Type) :=
| Ret (a : A) (s : state)
| Raise (e : exn) (s : state).
Arguments Ret {A} a s.
Arguments Raise {A} e s.

Definition M (A : Type) : Type := state → outcome A.

Global Instance M_ret : MRet M := λ A a s, Ret a s.

Global Instance M_bind : MBind M := λ A B k m s,
  match m s with
  | Ret a s' => k a s'
  | Raise e s' => Raise e s'
  end.

(** The state after further events. *)
Definition extend (s : state) (events : list event) : state :=
  {| codes := codes s; trace := trace s ++ events |}.

Definition emit (e : event) : M unit := λ s, Ret tt (extend s [e]).

(** [f.write(text)] on a file opened with mode ['w']: the file holds
    [text] afterwards, whatever it held before. *)
Definition write_file (name text : pystr) : M unit :=
  λ s, Ret tt {| codes := <[name := text]> (codes s);
                 trace := trace s ++ [WriteFile name text] |}.

(** A failed write after [open]: the file exists and holds [partial]. *)
Definition truncate_file (name partial : pystr) : M unit :=
  λ s, Ret tt {| codes := <[name := partial]> (codes s);
                 trace := trace s ++ [PartialWrite name partial] |}.

(** The console can encode the line.  Every encoding a console uses has the
    ASCII characters; the others depend on the console. *)
Definition encodable (w : World) (line : pystr) : bool :=
  forallb (λ c, (c <? 128) || console_encodes w c) line.

Definition raise {A} (e : exn) : M A := λ s, Raise e s.

Definition final_state {A} (o : outcome A) : state :=
  match o with
  | Ret _ s | Raise _ s => s
  end.

Definition check_mark : pystr := [10003].
Definition cross_mark : pystr := [10007].

(** [str(n)] *)
Definition str_of_nat (n : nat) : pystr := py (pretty n).

(** The instruction sent with every image (the [prompt] of
    [analyze_algorithm_image]). *)
Definition prompt : pystr := py "
        You are an expert in algorithms and LaTeX formatting. Analyze this image that contains algorithm pseudocode.

        Your task:
        1. Extract the exact algorithm(s) shown in the image
        2. Convert to LaTeX algorithmic format
        3. Do NOT include line numbers even if they appear in the image
        4. Output should start with \begin{algorithmic} and end with \end{algorithmic}
        5. If there are multiple algorithms in the image, create separate \begin{algorithmic}...\end{algorithmic} blocks for each
        6. Use proper LaTeX algorithmic commands like \State, \If, \EndIf, \For, \EndFor, \While, \EndWhile, \Function, \EndFunction, etc.
        7. Preserve the exact algorithm logic, variable names, and structure
        8. Do not add any explanatory text - only output the LaTeX code

        Example format:
        \begin{algorithmic}
        \Function{FunctionName}{parameters}
        \State statement
        \If{condition}
        \State statement
        \EndIf
        \Return{value}
        \EndFunction
        \end{algorithmic}

        Output ONLY the LaTeX algorithmic code blocks, nothing else.
        ".

(** The arguments of [client.chat.completions.create] in
    [analyze_algorithm_image]. *)
Definition vision_request (mime_type base64_image : pystr) : request :=
  {| model := py "o4-mini";
     text := prompt;
     image_url := py "data:" ++ mime_type ++ py ";base64," ++ base64_image;
     detail := py "high" |}.

(** ** [AlgorithmImageConverter] *)

Section Converter.
Variable w : World.

(** [print(line)] on an open console: the line is encoded as a whole before
    anything is written, and a character the console lacks raises
    [UnicodeEncodeError]. *)
Definition print (line : pystr) : M unit :=
  λ s, if encodable w line then Ret tt (extend s [Print line])
       else Raise (UnicodeEncodeError line) s.

(** [__init__]: the client is built from the key (the constructor raises
    when it has none), then [codes/] is created if it is missing. *)
Definition init (api_key : option pystr) : M unit :=
  let key := if truthy api_key then api_key else getenv_api_key w in
  match key with
  | None => raise OpenAIError
  | Some _ =>
      _ ← emit Mkdir;
      if mkdir_raises w then raise (OSError (py "codes")) else mret tt
  end.

Definition encode_image_to_base64 (name : pystr) : M pystr :=
  _ ← emit (ReadFile name);
  match read_bytes w name with
  | Some bytes => mret (b64encode bytes)
  | None => raise (OSError (images_path name))
  end.

Definition analyze_algorithm_image (name : pystr) : M (option pystr) :=
  base64_image ← encode_image_to_base64 name;
  let mime_type := get_image_mime_type name in
  let req := vision_request mime_type base64_image in
  _ ← emit (ChatRequest req);
  match chat_create w req with
  | inl content => mret (Some (strip content))
  | inr msg =>
      _ ← print (py "Error analyzing image " ++ images_path name
                 ++ py ": " ++ msg);
      mret None
  end.

(** The [except] branch of [save_latex_code]; its own [print] is not
    guarded. *)
Definition save_failed (name msg : pystr) : M bool :=
  _ ← print (cross_mark ++ py " Error saving " ++ codes_path name
             ++ py ": " ++ msg);
  mret false.

(** The [try] covers [open], [f.write], the closing of the file and the
    [print] of the check mark. *)
Definition save_latex_code (latex_code : pystr) (name : pystr) : M bool :=
  match write_outcome w name latex_code with
  | Written =>
      _ ← write_file name latex_code;
      let saved := check_mark ++ py " Saved: " ++ codes_path name in
      if encodable w saved then
        _ ← print saved;
        mret true
      else save_failed name (encode_error_text w saved)
  | OpenError msg => save_failed name msg
  | WriteError partial msg =>
      _ ← truncate_file name partial;
      save_failed name msg
  end.

Definition process_single_image (name : pystr) : M bool :=
  _ ← print (py "Processing: " ++ name);
  latex_code ← analyze_algorithm_image name;
  if negb (truthy latex_code) then
    _ ← print (cross_mark ++ py " Failed to analyze: " ++ name);
    mret false
  else
    let cleaned_code := clean_latex_output latex_code in
    match cleaned_code with
    | Some (c :: code) =>
        let base_name := path_stem name in
        save_latex_code (c :: code) (base_name ++ py ".tex")
    | _ =>
        _ ← print (cross_mark ++ py " No valid LaTeX code extracted from: "
                   ++ name);
        mret false
    end.

(** [self.images_dir.glob("*" + suffix)]: the entries whose name ends with
    [suffix]; the pattern is matched with the case of the letters kept, and
    a leading dot is matched by [*] like any other character. *)
Definition glob_star (suffix : pystr) : list pystr :=
  filter (λ name, endswith suffix name = true) (images_entries w).

(** The list [image_files] built by the first loop of
    [process_all_images]. *)
Definition image_files : list pystr :=
  suffix ← formats_order w; glob_star suffix.

(** The second loop of [process_all_images], with its two counters. *)
Fixpoint process_loop (paths : list pystr) (successful failed : nat)
  : M (nat * nat) :=
  match paths with
  | [] => mret (successful, failed)
  | image_path :: rest =>
      if startswith [dot] image_path then process_loop rest successful failed
      else
        ok ← process_single_image image_path;
        if ok : bool then process_loop rest (S successful) failed
        else process_loop rest successful (S failed)
  end.

Definition rule (n : nat) : pystr := concat (replicate n (py "=")).

Definition codes_absolute : pystr :=
  if bool_decide (cwd w = py "/") then py "/codes" else cwd w ++ py "/codes".

Definition process_all_images : M unit :=
  if negb (images_exists w) then
    print (py "Error: Images directory 'images' not found!")
  else
    match image_files with
    | [] => print (py "No supported image files found in images directory!")
    | _ :: _ =>
        _ ← print (py "Found " ++ str_of_nat (length image_files)
                   ++ py " image files to process...");
        _ ← print (rule 50);
        counters ← process_loop (sorted image_files) 0 0;
        _ ← print (rule 50);
        _ ← print (py "Processing complete!");
        _ ← print (check_mark ++ py " Successful: " ++ str_of_nat counters.1);
        _ ← print (cross_mark ++ py " Failed: " ++ str_of_nat counters.2);
        print (py "Output directory: " ++ codes_absolute)
    end.

Definition main : M unit :=
  _ ← print (py "Algorithm Image to LaTeX Converter");
  _ ← print (rule 40);
  let api_key := getenv_api_key w in
  if negb (truthy api_key) then
    _ ← print (py "Error: Please set your OpenAI API key as environment variable:");
    print (py "export OPENAI_API_KEY='your-api-key-here'")
  else
    _ ← init api_key;
    process_all_images.
End Converter.

Definition initial (files : gmap pystr pystr) : state :=
  {| codes := files; trace := [] |}.

(** ** Observations on a run *)

(** The images that were opened, in the order of the run. *)
Definition reads (tr : list event) : list pystr :=
  omap (λ e, match e with ReadFile name => Some name | _ => None end) tr.

(** The requests sent to the completion service. *)
Definition requests (tr : list event) : list request :=
  omap (λ e, match e with ChatRequest req => Some req | _ => None end) tr.

(** The files written under [codes/], with the text written. *)
Definition writes (tr : list event) : list (pystr * pystr) :=
  omap (λ e, match e with WriteFile name body => Some (name, body) | _ => None end) tr.

(** The files left created or truncated by a write that failed. *)
Definition partial_writes (tr : list event) : list (pystr * pystr) :=
  omap (λ e, match e with PartialWrite name partial => Some (name, partial) | _ => None end) tr.

(** The console has every character. *)
Definition console_complete (w : World) : Prop :=
  ∀ c, console_encodes w c = true.

(** A name that the second loop of [process_all_images] does not skip. *)
Definition visible (name : pystr) : Prop := startswith [dot] name = false.

Global Instance visible_dec (name : pystr) : Decision (visible name).
Proof. unfold visible. apply _. Defined.

(** ** Reading a payload back

    The program only encodes.  The inverse below serves to show that the
    payload determines the bytes of the image. *)

(** The characters [b64encode] can produce. *)
Definition b64_alphabet (c : N) : bool :=
  ((65 <=? c) && (c <=? 90)) || ((97 <=? c) && (c <=? 122))
  || ((48 <=? c) && (c <=? 57)) || (c =? 43) || (c =? 47) || (c =? pad).

Definition b64val (c : N) : N :=
  if (65 <=? c) && (c <=? 90) then c - 65
  else if (97 <=? c) && (c <=? 122) then c - 97 + 26
  else if (48 <=? c) && (c <=? 57) then c - 48 + 52
  else if c =? 43 then 62
  else 63.

Fixpoint b64decode (s : pystr) : list N :=
  match s with
  | c0 :: c1 :: c2 :: c3 :: rest =>
      let v0 := b64val c0 in
      let v1 := b64val c1 in
      let v2 := b64val c2 in
      let v3 := b64val c3 in
      if c2 =? pad then [v0 * 4 + v1 / 16]
      else if c3 =? pad then [v0 * 4 + v1 / 16; (v1 mod 16) * 16 + v2 / 4]
      else v0 * 4 + v1 / 16 :: (v1 mod 16) * 16 + v2 / 4
           :: (v2 mod 4) * 64 + v3 :: b64decode rest
  | _ => []
  end.

(** A byte string: every element is below 256. *)
Definition is_bytes (bytes : list N) : Prop := Forall (λ b, b < 256) bytes.

(** ** Sample worlds *)

(** A response wrapped in a fence tagged [latex], as the service often
    returns it. *)
Definition fenced (body : pystr) : pystr :=
  fence_latex ++ newline :: body ++ newline :: fence.

(** A world with the given key, directory and entries, where the files
    listed in [unreadable] cannot be read, every other file holds its own
    name as content, every file of [codes/] can be written and the console
    has every character. *)
Definition sample_world (key : option pystr) (dir_exists : bool)
    (entries unreadable : list pystr) (reply : request → pystr + pystr)
  : World :=
  {| getenv_api_key := key;
     cwd := py "/home/user/notes";
     images_exists := dir_exists;
     images_entries := entries;
     formats_order := supported_formats;
     read_bytes := λ name,
       if bool_decide (name ∈ unreadable) then None else Some name;
     chat_create := reply;
     write_outcome := λ _ _, Written;
     console_encodes := λ _, true;
     encode_error_text := λ _, py "codec can't encode character";
     mkdir_raises := false |}.


(** The same world where every write to [codes/] ends as [result]. *)
Definition writes_end_as (result : write_result) (w : World) : World :=
  {| getenv_api_key := getenv_api_key w;
     cwd := cwd w;
     images_exists := images_exists w;
     images_entries := images_entries w;
     formats_order := formats_order w;
     read_bytes := read_bytes w;
     chat_create := chat_create w;
     write_outcome := λ _ _, result;
     console_encodes := console_encodes w;
     encode_error_text := encode_error_text w;
     mkdir_raises := mkdir_raises w |}.

(** The service answers with the image URL it was sent, inside a fence. *)
Definition echo_reply (req : request) : pystr + pystr :=
  inl (fenced (image_url req)).

(** The console lines printed before and after the second loop of
    [process_all_images]. *)
Definition heading (w : World) : list event :=
  [Print (py "Found " ++ str_of_nat (length (image_files w))
          ++ py " image files to process...");
   Print (rule 50)].

Definition summary (w : World) (counters : nat * nat) : list event :=
  [Print (rule 50); Print (py "Processing complete!");
   Print (check_mark ++ py " Successful: " ++ str_of_nat counters.1);
   Print (cross_mark ++ py " Failed: " ++ str_of_nat counters.2);
   Print (py "Output directory: " ++ codes_absolute w)].

(** The request sent for the image [name] when its content is [bytes]. *)
Definition request_of (name : pystr) (bytes : list N) : request :=
  vision_request (get_image_mime_type name) (b64encode bytes).

(** What is left of the text after a literal once the optional newline of
    the pattern has been consumed. *)
Definition drop_newline (s : pystr) : pystr :=
  match s with
  | c :: r => if c =? newline then r else s
  | [] => []
  end.

(** * Properties *)

(** ** Strings *)

Lemma startswith_prefix (pre s : pystr) :
  startswith pre s = true ↔ pre `prefix_of` s.
Proof.
  revert s. induction pre as [|a pre IH]; intros [|b s]; simpl.
  - split; [intros _; apply prefix_nil | done].
  - split; [intros _; apply prefix_nil | done].
  - split; [done | intros H; by apply prefix_nil_not in H].
  - rewrite andb_true_iff, N.eqb_eq, IH. split.
    + intros [-> H]. by apply prefix_cons.
    + intros H. split; [by apply prefix_cons_inv_1 in H | by apply prefix_cons_inv_2 in H].
Qed.

Lemma startswith_app (p q r : pystr) :
  startswith (p ++ q) (p ++ r) = startswith q r.
Proof. induction p as [|a p IH]; simpl; [done|]. by rewrite N.eqb_refl. Qed.

Lemma startswith_refl_app (p r : pystr) : startswith p (p ++ r) = true.
Proof.
  rewrite <- (app_nil_r p) at 1. rewrite startswith_app. done.
Qed.

Lemma startswith_app_false (p q s : pystr) :
  startswith p s = false → startswith (p ++ q) s = false.
Proof.
  intros H. apply not_true_is_false. intros Hpq.
  rewrite startswith_prefix in Hpq.
  assert (startswith p s = true) as Hp.
  { apply startswith_prefix. etrans; [apply prefix_app_r; reflexivity | done]. }
  congruence.
Qed.

Lemma occurs_cons (lit : pystr) (c : N) (t : pystr) :
  occurs lit (c :: t) = startswith lit (c :: t) || occurs lit t.
Proof. done. Qed.

Lemma occurs_infix (lit s : pystr) :
  occurs lit s = true ↔ ∃ a b, s = a ++ lit ++ b.
Proof.
  induction s as [|c s IH]; simpl.
  - rewrite orb_false_r, startswith_prefix. split.
    + intros [k ->]. by exists [], k.
    + intros (a & b & H). symmetry in H.
      apply app_eq_nil in H as [-> H]. apply app_eq_nil in H as [-> ->].
      apply prefix_nil.
  - rewrite orb_true_iff, IH, startswith_prefix. split.
    + intros [[k ->] | (a & b & ->)]; [by exists [], k | by exists (c :: a), b].
    + intros ([|x a] & b & H); simpl in H.
      * left. rewrite H. by exists b.
      * right. injection H as -> ->. by exists a, b.
Qed.

Lemma occurs_false_infix (lit a s b : pystr) :
  occurs lit (a ++ s ++ b) = false → occurs lit s = false.
Proof.
  intros H. apply not_true_is_false. intros Hs.
  apply occurs_infix in Hs as (x & y & ->).
  apply not_true_iff_false in H. apply H. apply occurs_infix.
  exists (a ++ x), (y ++ b). by rewrite <- !app_assoc.
Qed.

Lemma occurs_extend (p q s : pystr) :
  occurs p s = false → occurs (p ++ q) s = false.
Proof.
  intros H. apply not_true_is_false. intros Hs.
  apply occurs_infix in Hs as (x & y & ->).
  apply not_true_iff_false in H. apply H. apply occurs_infix.
  exists x, (q ++ y). by rewrite <- !app_assoc.
Qed.

(** *** Stripping *)

Lemma lstrip_suffix (s : pystr) : ∃ a, s = a ++ lstrip s.
Proof.
  induction s as [|c s [a IH]]; simpl; [by exists []|].
  destruct (isspace c); [|by exists []].
  exists (c :: a). simpl. by f_equal.
Qed.

Lemma rstrip_prefix (s : pystr) : ∃ b, s = rstrip s ++ b.
Proof.
  unfold rstrip. destruct (lstrip_suffix (reverse s)) as [a H].
  exists (reverse a). rewrite <- reverse_app, <- H. by rewrite reverse_involutive.
Qed.

Lemma strip_infix (s : pystr) : ∃ a b, s = a ++ strip s ++ b.
Proof.
  unfold strip. destruct (lstrip_suffix s) as [a Ha].
  destruct (rstrip_prefix (lstrip s)) as [b Hb].
  exists a, b. by rewrite <- Hb.
Qed.

Lemma lstrip_fixed (s : pystr) :
  match s with [] => True | c :: _ => isspace c = false end → lstrip s = s.
Proof. destruct s as [|c s]; simpl; [done|]. by intros ->. Qed.

Lemma lstrip_head (s : pystr) :
  match lstrip s with [] => True | c :: _ => isspace c = false end.
Proof.
  induction s as [|c s IH]; simpl; [done|].
  destruct (isspace c) eqn:E; [done | by simpl].
Qed.

Lemma lstrip_idemp (s : pystr) : lstrip (lstrip s) = lstrip s.
Proof. apply lstrip_fixed, lstrip_head. Qed.

Lemma lstrip_snoc (u : pystr) (c : N) :
  isspace c = false → lstrip (u ++ [c]) = lstrip u ++ [c].
Proof.
  intros Hc. induction u as [|d u IH]; simpl; [by rewrite Hc|].
  by destruct (isspace d).
Qed.

Lemma rstrip_cons (c : N) (t : pystr) :
  isspace c = false → rstrip (c :: t) = c :: rstrip t.
Proof.
  intros Hc. unfold rstrip. rewrite reverse_cons, lstrip_snoc by done.
  by rewrite reverse_app.
Qed.

Lemma rstrip_idemp (s : pystr) : rstrip (rstrip s) = rstrip s.
Proof. unfold rstrip. by rewrite reverse_involutive, lstrip_idemp. Qed.

Lemma strip_idemp (s : pystr) : strip (strip s) = strip s.
Proof.
  unfold strip. pose proof (lstrip_head s) as H.
  destruct (lstrip s) as [|c t]; [done|].
  rewrite rstrip_cons by done.
  rewrite (lstrip_fixed (c :: rstrip t)) by done.
  rewrite <- (rstrip_cons c t) by done. apply rstrip_idemp.
Qed.

Lemma lstrip_space (c : N) (s : pystr) :
  isspace c = true → lstrip (c :: s) = lstrip s.
Proof. simpl. by intros ->. Qed.

Lemma strip_space (c : N) (s : pystr) :
  isspace c = true → strip (c :: s) = strip s.
Proof. intros H. unfold strip. by rewrite lstrip_space. Qed.

Lemma occurs_strip (lit s : pystr) :
  occurs lit s = false → occurs lit (strip s) = false.
Proof.
  intros H. destruct (strip_infix s) as (a & b & E). rewrite E in H.
  by apply occurs_false_infix in H.
Qed.

(** *** Substitution *)

Lemma sub_from_skip (lit : pystr) (k : nat) (s : pystr) :
  sub_from lit k s = sub_from lit 0 (drop k s).
Proof.
  revert s. induction k as [|k IH]; intros [|c s]; simpl; done.
Qed.

Lemma sub_from_cons (lit : pystr) (c : N) (t : pystr) :
  sub_from lit 0 (c :: t) =
    if startswith (lit ++ [newline]) (c :: t) then sub_from lit (length lit) t
    else if startswith lit (c :: t) then sub_from lit (pred (length lit)) t
    else c :: sub_from lit 0 t.
Proof. done. Qed.

Lemma drop_past (l : pystr) (c : N) (r : pystr) :
  drop (S (length l)) (l ++ c :: r) = r.
Proof. induction l as [|x l IH]; simpl; [done|]. apply IH. Qed.

Lemma sub_from_match (lit rest : pystr) :
  lit ≠ [] →
  sub_from lit 0 (lit ++ rest) = sub_from lit 0 (drop_newline rest).
Proof.
  destruct lit as [|a l]; [done|]. intros _.
  change ((a :: l) ++ rest) with (a :: (l ++ rest)).
  rewrite sub_from_cons.
  change (a :: (l ++ rest)) with ((a :: l) ++ rest).
  rewrite startswith_app, startswith_refl_app.
  rewrite (sub_from_skip _ (length (a :: l))), (sub_from_skip _ (pred (length (a :: l)))).
  change (pred (length (a :: l))) with (length l).
  change (length (a :: l)) with (S (length l)).
  destruct rest as [|c r].
  - simpl. by rewrite drop_app_length.
  - change (startswith [newline] (c :: r)) with ((newline =? c) && true).
    unfold drop_newline. rewrite andb_true_r, (N.eqb_sym newline c).
    destruct (c =? newline).
    + by rewrite drop_past.
    + simpl. by rewrite drop_app_length.
Qed.

Lemma sub_from_nomatch (lit : pystr) (c : N) (t : pystr) :
  startswith lit (c :: t) = false →
  sub_from lit 0 (c :: t) = c :: sub_from lit 0 t.
Proof.
  intros H. rewrite sub_from_cons, H.
  by rewrite (startswith_app_false _ [newline] _ H).
Qed.

Lemma sub_from_absent (lit s : pystr) :
  occurs lit s = false → sub_from lit 0 s = s.
Proof.
  induction s as [|c s IH]; [done|]. simpl occurs.
  intros [H1 H2]%orb_false_iff.
  rewrite sub_from_nomatch by done. by rewrite IH.
Qed.

Lemma startswith_cons (a : N) (p : pystr) (b : N) (s : pystr) :
  startswith (a :: p) (b :: s) = (a =? b) && startswith p s.
Proof. done. Qed.

Lemma sub_fence_other (c : N) (t : pystr) :
  (96 =? c) = false → sub_from fence 0 (c :: t) = c :: sub_from fence 0 t.
Proof.
  intros H. apply sub_from_nomatch. unfold fence. by rewrite startswith_cons, H.
Qed.

Lemma startswith_tick_sub (t : pystr) :
  startswith [96] t = false → startswith [96] (sub_from fence 0 t) = false.
Proof.
  destruct t as [|e t]; [done|].
  rewrite startswith_cons, andb_true_r. intros H.
  rewrite sub_fence_other by done. by rewrite startswith_cons, H.
Qed.

Lemma startswith_ticks_sub (t : pystr) :
  startswith [96; 96] t = false →
  startswith [96; 96] (sub_from fence 0 t) = false.
Proof.
  destruct t as [|d t]; [done|]. rewrite startswith_cons.
  destruct (96 =? d) eqn:E.
  - rewrite andb_true_l. intros H.
    rewrite sub_from_nomatch.
    + by rewrite startswith_cons, E, startswith_tick_sub.
    + unfold fence. rewrite startswith_cons, E, andb_true_l.
      by apply (startswith_app_false [96] [96]).
  - intros _. rewrite sub_fence_other by done. by rewrite startswith_cons, E.
Qed.

Lemma startswith_fence_sub (c : N) (t : pystr) :
  startswith fence (c :: t) = false →
  startswith fence (c :: sub_from fence 0 t) = false.
Proof.
  intros H. unfold fence in H. rewrite startswith_cons in H.
  change (startswith fence (c :: sub_from fence 0 t))
    with ((96 =? c) && startswith [96; 96] (sub_from fence 0 t)).
  destruct (96 =? c); [|done]. rewrite andb_true_l in *.
  by apply startswith_ticks_sub.
Qed.
Lemma length_drop_newline (s : pystr) :
  (length (drop_newline s) ≤ length s)%nat.
Proof.
  destruct s as [|c r]; simpl; [lia|]. destruct (c =? newline); simpl; lia.
Qed.

Lemma fence_gone_bounded (n : nat) (s : pystr) :
  (length s ≤ n)%nat → occurs fence (sub_from fence 0 s) = false.
Proof.
  revert s. induction n as [|n IH]; intros [|c t] Hlen; simpl in Hlen; try done; try lia.
  destruct (startswith fence (c :: t)) eqn:E.
  - apply startswith_prefix in E as [rest E]. rewrite E.
    rewrite sub_from_match by done. apply IH.
    assert (length (c :: t) = length (fence ++ rest)) as Hl by (by rewrite E).
    rewrite length_app in Hl. change (length fence) with 3%nat in Hl.
    simpl in Hl. pose proof (length_drop_newline rest). lia.
  - rewrite sub_from_nomatch by done.
    change (occurs fence (c :: sub_from fence 0 t))
      with (startswith fence (c :: sub_from fence 0 t) || occurs fence (sub_from fence 0 t)).
    rewrite startswith_fence_sub by done. simpl. apply IH. lia.
Qed.

Lemma fence_gone (s : pystr) : occurs fence (sub_from fence 0 s) = false.
Proof. by apply (fence_gone_bounded (length s)). Qed.

Lemma fence_latex_absent (s : pystr) :
  occurs fence s = false → occurs fence_latex s = false.
Proof. apply (occurs_extend fence (py "latex")). Qed.

Lemma clean_fixed (s : pystr) :
  s ≠ [] → occurs fence s = false → strip s = s →
  clean_latex_output (Some s) = Some s.
Proof.
  intros Hne Hf Hs. unfold clean_latex_output, re_sub_opt_newline.
  destruct s as [|c s]; [done|]. simpl truthy. cbv iota beta. simpl negb. cbv iota.
  rewrite (sub_from_absent fence_latex) by by apply fence_latex_absent.
  rewrite (sub_from_absent fence) by done. by rewrite Hs.
Qed.

Lemma clean_some (s : option pystr) (r : pystr) :
  clean_latex_output s = Some r → occurs fence r = false ∧ strip r = r.
Proof.
  unfold clean_latex_output, re_sub_opt_newline.
  destruct (negb (truthy s)); [done|]. destruct s as [code|]; [|done].
  intros [= <-]. split; [apply occurs_strip, fence_gone | apply strip_idemp].
Qed.


Lemma sub_fence_closing (body : pystr) :
  occurs fence body = false → sub_from fence 0 (body ++ fence) = body.
Proof.
  induction body as [|c t IH]; [done|].
  rewrite occurs_cons. intros [H1 H2]%orb_false_iff.
  destruct t as [|d [|e t']].
  - clear IH H1 H2. simpl app. destruct (N.eqb_spec 96 c) as [<-|Hc]; [done|].
    apply N.eqb_neq in Hc. by rewrite sub_fence_other.
  - clear IH H1 H2. simpl app.
    destruct (N.eqb_spec 96 d) as [<-|Hd].
    + destruct (N.eqb_spec 96 c) as [<-|Hc]; [done|].
      apply N.eqb_neq in Hc. by rewrite sub_fence_other.
    + apply N.eqb_neq in Hd. rewrite sub_from_nomatch.
      * by rewrite sub_fence_other.
      * unfold fence. by rewrite !startswith_cons, Hd, andb_false_r.
  - rewrite <- app_comm_cons. rewrite sub_from_nomatch; [by rewrite IH|].
    rewrite <- H1. unfold fence. simpl app. by rewrite !startswith_cons.
Qed.

Lemma startswith_short (p s : pystr) :
  (length s < length p)%nat → startswith p s = false.
Proof.
  intros Hl. apply not_true_is_false. intros H%startswith_prefix.
  apply prefix_length in H. lia.
Qed.

Lemma fence_latex_closing (body : pystr) :
  occurs fence body = false → occurs fence_latex (body ++ fence) = false.
Proof.
  induction body as [|c t IH]; [done|].
  rewrite occurs_cons. intros [H1 H2]%orb_false_iff.
  rewrite <- app_comm_cons, occurs_cons, (IH H2), orb_false_r.
  destruct t as [|d [|e t']].
  - apply startswith_short. simpl. lia.
  - apply startswith_short. simpl. lia.
  - apply (startswith_app_false fence (py "latex")).
    rewrite <- H1. unfold fence. by rewrite !startswith_cons.
Qed.

Lemma drop_newline_closing (body : pystr) :
  drop_newline (body ++ fence) = drop_newline body ++ fence.
Proof. destruct body as [|c r]; [done|]. simpl. by destruct (c =? newline). Qed.

Lemma occurs_drop_newline (lit body : pystr) :
  occurs lit body = false → occurs lit (drop_newline body) = false.
Proof.
  destruct body as [|c r]; [done|]. simpl drop_newline.
  destruct (c =? newline); [|done]. simpl. by intros [_ H]%orb_false_iff.
Qed.

Lemma strip_drop_newline (body : pystr) :
  strip (drop_newline body) = strip body.
Proof.
  destruct body as [|c r]; [done|]. simpl drop_newline.
  destruct (N.eqb_spec c newline) as [->|]; [|done].
  by rewrite strip_space.
Qed.

Lemma clean_unfold (c : N) (s : pystr) :
  clean_latex_output (Some (c :: s)) =
    Some (strip (sub_from fence 0 (sub_from fence_latex 0 (c :: s)))).
Proof. done. Qed.

(** ** Order of the paths *)

Lemma str_leb_total (a b : pystr) : str_leb a b = true ∨ str_leb b a = true.
Proof.
  revert b. induction a as [|x a IH]; intros [|y b]; simpl; auto.
  destruct (N.ltb_spec x y), (N.ltb_spec y x); auto; lia.
Qed.

Lemma str_leb_trans (a b c : pystr) :
  str_leb a b = true → str_leb b c = true → str_leb a c = true.
Proof.
  revert b c. induction a as [|x a IH]; intros [|y b] [|z c]; simpl; auto; try done.
  destruct (N.ltb_spec x y), (N.ltb_spec y x), (N.ltb_spec y z),
    (N.ltb_spec z y), (N.ltb_spec x z), (N.ltb_spec z x);
    try done; try lia; eauto.
Qed.

Lemma str_leb_antisym (a b : pystr) :
  str_leb a b = true → str_leb b a = true → a = b.
Proof.
  revert b. induction a as [|x a IH]; intros [|y b]; simpl; auto; try done.
  destruct (N.ltb_spec x y), (N.ltb_spec y x); try done; try lia.
  intros. f_equal; [lia | auto].
Qed.

Global Instance path_le_total : Total path_le.
Proof. intros a b. apply str_leb_total. Qed.

Global Instance path_le_trans : Transitive path_le.
Proof. intros a b c. apply str_leb_trans. Qed.

Global Instance path_le_antisym : AntiSymm (=) path_le.
Proof. intros a b. apply str_leb_antisym. Qed.

Lemma sorted_Permutation (l : list pystr) : sorted l ≡ₚ l.
Proof. apply merge_sort_Permutation. Qed.

Lemma sorted_StronglySorted (l : list pystr) : StronglySorted path_le (sorted l).
Proof. apply StronglySorted_merge_sort; apply _. Qed.

Lemma sorted_unique (l k : list pystr) :
  StronglySorted path_le k → k ≡ₚ l → sorted l = k.
Proof.
  intros Hk Hp. apply (StronglySorted_unique path_le).
  - apply sorted_StronglySorted.
  - done.
  - by rewrite sorted_Permutation.
Qed.

Lemma sorted_proper (l k : list pystr) : l ≡ₚ k → sorted l = sorted k.
Proof.
  intros Hp. apply sorted_unique; [apply sorted_StronglySorted|].
  by rewrite sorted_Permutation.
Qed.

(** ** Discovery *)

Lemma endswith_suffix (suf s : pystr) :
  endswith suf s = true ↔ suf `suffix_of` s.
Proof.
  unfold endswith. rewrite startswith_prefix. symmetry. apply suffix_prefix_reverse.
Qed.

Lemma endswith_app (pre suf : pystr) : endswith suf (pre ++ suf) = true.
Proof. apply endswith_suffix. by exists pre. Qed.

Lemma endswith_weak_total (a b s : pystr) :
  endswith a s = true → endswith b s = true →
  endswith a b = true ∨ endswith b a = true.
Proof. rewrite !endswith_suffix. apply suffix_weak_total. Qed.

(** No recognised suffix is the end of another one. *)
Lemma supported_formats_exclusive (a b : pystr) :
  a ∈ supported_formats → b ∈ supported_formats →
  endswith a b = true → a = b.
Proof.
  unfold supported_formats. rewrite !elem_of_cons, !elem_of_nil.
  intros Ha Hb.
  destruct Ha as [->|[->|[->|[->|[->|[]]]]]];
    destruct Hb as [->|[->|[->|[->|[->|[]]]]]];
    vm_compute; congruence.
Qed.

Lemma supported_formats_NoDup : NoDup supported_formats.
Proof. apply (bool_decide_unpack _). by vm_compute. Qed.

Section Discovery.
Variable w : World.
Hypothesis Horder : formats_order w ≡ₚ supported_formats.

Lemma elem_of_glob_star (suffix name : pystr) :
  name ∈ glob_star w suffix ↔
  name ∈ images_entries w ∧ endswith suffix name = true.
Proof. unfold glob_star. rewrite list_elem_of_filter. tauto. Qed.

(** Discovery selects exactly the entries whose name ends, letter case
    kept, with one of the five suffixes. *)
Lemma elem_of_image_files (name : pystr) :
  name ∈ image_files w ↔
  name ∈ images_entries w ∧
  ∃ suffix, suffix ∈ supported_formats ∧ endswith suffix name = true.
Proof.
  unfold image_files. rewrite list_elem_of_bind. split.
  - intros (suf & [H1 H2]%elem_of_glob_star & H3).
    split; [done|]. exists suf. by rewrite <- Horder.
  - intros (H1 & suf & H2 & H3). exists suf.
    rewrite elem_of_glob_star, Horder. done.
Qed.

(** An entry is selected once, although the directory is scanned once per
    suffix. *)
Lemma image_files_NoDup : NoDup (images_entries w) → NoDup (image_files w).
Proof.
  intros Hnd. unfold image_files. apply NoDup_bind.
  - intros a b name Ha Hb [_ H1]%elem_of_glob_star [_ H2]%elem_of_glob_star.
    rewrite Horder in Ha, Hb.
    destruct (endswith_weak_total _ _ _ H1 H2) as [H|H].
    + by apply supported_formats_exclusive.
    + symmetry. by apply supported_formats_exclusive.
  - intros suf _. by apply NoDup_filter.
  - rewrite Horder. apply supported_formats_NoDup.
Qed.

Lemma image_files_order_irrelevant :
  image_files w ≡ₚ (suffix ← supported_formats; glob_star w suffix).
Proof. unfold image_files. by rewrite Horder. Qed.
End Discovery.

Lemma glob_star_Permutation (w w' : World) (suffix : pystr) :
  images_entries w ≡ₚ images_entries w' →
  glob_star w suffix ≡ₚ glob_star w' suffix.
Proof. intros H. unfold glob_star. by rewrite H. Qed.

Lemma bind_Permutation_ext {A B} (f g : A → list B) (l : list A) :
  (∀ x, f x ≡ₚ g x) → l ≫= f ≡ₚ l ≫= g.
Proof.
  intros H. induction l as [|x l IH]; csimpl; [done|]. by rewrite H, IH.
Qed.

(** The list of discovered images depends, up to its order, on the set of
    entries only. *)
Lemma image_files_Permutation (w : World) (entries : list pystr) :
  formats_order w ≡ₚ supported_formats →
  images_entries w ≡ₚ entries →
  image_files w ≡ₚ
    (suffix ← supported_formats;
     filter (λ name, endswith suffix name = true) entries).
Proof.
  intros Ho He. rewrite image_files_order_irrelevant by done.
  apply bind_Permutation_ext. intros suf. unfold glob_star. by rewrite He.
Qed.

(** ** Extensions *)

Lemma rfind_app (c : N) (pre s : pystr) :
  rfind c (pre ++ s) =
    match rfind c s with
    | Some i => Some (length pre + i)%nat
    | None => rfind c pre
    end.
Proof.
  induction pre as [|x pre IH]; simpl.
  - by destruct (rfind c s).
  - rewrite IH. by destruct (rfind c s).
Qed.

Lemma supported_formats_shape (suffix : pystr) :
  suffix ∈ supported_formats →
  rfind dot suffix = Some O ∧ startswith [dot] suffix = true
  ∧ (2 ≤ length suffix)%nat.
Proof.
  unfold supported_formats. rewrite !elem_of_cons, !elem_of_nil.
  intros [->|[->|[->|[->|[->|[]]]]]]; vm_compute; repeat split; lia.
Qed.

(** For a name that does not begin with a dot, ending with a recognised
    suffix and having it as extension are the same. *)
Lemma path_suffix_supported (name suffix : pystr) :
  suffix ∈ supported_formats → visible name →
  endswith suffix name = true → path_suffix name = suffix.
Proof.
  intros (Hr & Hd & Hl)%supported_formats_shape Hv [pre ->]%endswith_suffix.
  unfold path_suffix. rewrite rfind_app, Hr, Nat.add_0_r.
  destruct pre as [|x pre].
  { unfold visible in Hv. simpl app in Hv. congruence. }
  rewrite length_app.
  replace (Nat.ltb 0 (length (x :: pre))) with true
    by (symmetry; apply Nat.ltb_lt; simpl; lia).
  replace (Nat.ltb (length (x :: pre)) (length (x :: pre) + length suffix - 1))
    with true by (symmetry; apply Nat.ltb_lt; simpl; lia).
  simpl andb. cbv iota. by rewrite drop_app_length.
Qed.

Lemma path_suffix_endswith (name : pystr) :
  endswith (path_suffix name) name = true.
Proof.
  apply endswith_suffix. unfold path_suffix.
  destruct (rfind dot name) as [i|]; [|apply suffix_nil].
  destruct (_ && _)%bool; [apply suffix_drop | apply suffix_nil].
Qed.

Lemma visible_extension (name : pystr) :
  visible name →
  (∃ suffix, suffix ∈ supported_formats ∧ endswith suffix name = true)
  ↔ path_suffix name ∈ supported_formats.
Proof.
  intros Hv. split.
  - intros (suf & H1 & H2). by rewrite (path_suffix_supported name suf).
  - intros H. exists (path_suffix name). split; [done | apply path_suffix_endswith].
Qed.

(** ** The console *)

Arguments clean_latex_output : simpl never.
Arguments strip : simpl never.
Arguments path_stem : simpl never.
Arguments vision_request : simpl never.
Arguments get_image_mime_type : simpl never.
Arguments b64encode : simpl never.
Arguments py : simpl never.
Arguments images_path : simpl never.
Arguments codes_path : simpl never.

Lemma extend_extend (s : state) (a b : list event) :
  extend (extend s a) b = extend s (a ++ b).
Proof. unfold extend. simpl. by rewrite <- app_assoc. Qed.

Lemma reads_app (a b : list event) : reads (a ++ b) = reads a ++ reads b.
Proof. apply omap_app. Qed.

Lemma writes_app (a b : list event) : writes (a ++ b) = writes a ++ writes b.
Proof. apply omap_app. Qed.

Lemma requests_app (a b : list event) :
  requests (a ++ b) = requests a ++ requests b.
Proof. apply omap_app. Qed.

Lemma reads_extend (st : state) (events : list event) :
  reads (trace (extend st events)) = reads (trace st) ++ reads events.
Proof. apply reads_app. Qed.


Section Console.
Variable w : World.

Lemma encodable_app (a b : pystr) :
  encodable w (a ++ b) = encodable w a && encodable w b.
Proof. apply forallb_app. Qed.

Lemma encodable_complete (line : pystr) :
  console_complete w → encodable w line = true.
Proof.
  intros H. unfold encodable. apply forallb_forall. intros c _.
  by rewrite H, orb_true_r.
Qed.

Lemma encodable_take (n : nat) (line : pystr) :
  encodable w line = true → encodable w (take n line) = true.
Proof.
  intros H. rewrite <- (take_drop n line), encodable_app in H.
  by apply andb_true_iff in H as [H _].
Qed.

Lemma encodable_path_stem (name : pystr) :
  encodable w name = true → encodable w (path_stem name) = true.
Proof.
  intros H. unfold path_stem. destruct (rfind dot name); [|done].
  destruct (_ && _)%bool; [by apply encodable_take | done].
Qed.

Lemma print_ok (line : pystr) (st : state) :
  encodable w line = true → print w line st = Ret tt (extend st [Print line]).
Proof. intros H. unfold print. by rewrite H. Qed.

Lemma print_fails (line : pystr) (st : state) :
  encodable w line = false →
  print w line st = Raise (UnicodeEncodeError line) st.
Proof. intros H. unfold print. by rewrite H. Qed.

Lemma print_Ret (line : pystr) (st st' : state) (u : unit) :
  print w line st = Ret u st' →
  encodable w line = true ∧ st' = extend st [Print line].
Proof. unfold print. destruct (encodable w line); [|done]. by intros [= <-]. Qed.

(** The lines of one item. *)
Lemma encodable_processing (name : pystr) :
  encodable w (py "Processing: " ++ name) = encodable w name.
Proof. by rewrite encodable_app. Qed.




Lemma encodable_saved (name : pystr) :
  encodable w (check_mark ++ py " Saved: " ++ codes_path name)
  = encodable w check_mark && encodable w name.
Proof. unfold codes_path. by rewrite !encodable_app. Qed.

Lemma encodable_error_saving (name msg : pystr) :
  encodable w (cross_mark ++ py " Error saving " ++ codes_path name
               ++ py ": " ++ msg)
  = encodable w cross_mark && (encodable w name && encodable w msg).
Proof. unfold codes_path. by rewrite !encodable_app. Qed.

Lemma encodable_tex (name : pystr) :
  encodable w name = true → encodable w (path_stem name ++ py ".tex") = true.
Proof. intros H. by rewrite encodable_app, encodable_path_stem. Qed.
End Console.

(** ** One image *)

(** Unfolds the monadic code of one image, and nothing else. *)
Ltac run_M :=
  lazy beta iota zeta delta
    [process_single_image analyze_algorithm_image encode_image_to_base64
     save_latex_code save_failed write_file truncate_file emit raise
     mbind M_bind mret M_ret negb truthy].

Section OneImage.
Variables (w : World) (name : pystr) (st : state).

Lemma process_single_image_unprintable :
  encodable w name = false →
  process_single_image w name st =
    Raise (UnicodeEncodeError (py "Processing: " ++ name)) st.
Proof.
  intros Hn. run_M. by rewrite print_fails by by rewrite encodable_processing.
Qed.

Lemma process_single_image_unreadable :
  encodable w name = true →
  read_bytes w name = None →
  process_single_image w name st =
    Raise (OSError (images_path name))
      (extend st [Print (py "Processing: " ++ name); ReadFile name]).
Proof.
  intros Hn H. run_M. rewrite print_ok by by rewrite encodable_processing.
  rewrite H. by rewrite extend_extend.
Qed.




Lemma process_single_image_saved (bytes : list N) (content body : pystr) :
  encodable w name = true → encodable w check_mark = true →
  read_bytes w name = Some bytes →
  chat_create w (request_of name bytes) = inl content →
  clean_latex_output (Some (strip content)) = Some body →
  body ≠ [] →
  write_outcome w (path_stem name ++ py ".tex") body = Written →
  process_single_image w name st =
    Ret true
      {| codes := <[path_stem name ++ py ".tex" := body]> (codes st);
         trace := trace st ++
           [Print (py "Processing: " ++ name); ReadFile name;
            ChatRequest (request_of name bytes);
            WriteFile (path_stem name ++ py ".tex") body;
            Print (check_mark ++ py " Saved: "
                   ++ codes_path (path_stem name ++ py ".tex"))] |}.
Proof.
  intros Hn Hc H1 H2 H3 H4 H5. run_M.
  rewrite print_ok by by rewrite encodable_processing.
  rewrite H1. fold (request_of name bytes). rewrite H2.
  destruct (strip content) as [|c r] eqn:E; [done|]. run_M.
  rewrite H3. destruct body as [|b body]; [done|].
  rewrite H5.
  assert (encodable w (check_mark ++ py " Saved: "
            ++ codes_path (path_stem name ++ py ".tex")) = true) as Hs
    by by rewrite encodable_saved, Hc, encodable_tex.
  rewrite Hs, print_ok by done.
  unfold extend. simpl. by rewrite <- !app_assoc.
Qed.
End OneImage.

(** Every way [process_single_image] can go, one goal each. *)
Ltac all_cases :=
  run_M; unfold print;
  repeat match goal with
  | |- context [if encodable ?w ?l then _ else _] =>
      let E := fresh "Henc" in destruct (encodable w l) eqn:E; run_M
  | |- context [match read_bytes ?w ?n with _ => _ end] =>
      let E := fresh "Hread" in destruct (read_bytes w n) eqn:E; run_M
  | |- context [match chat_create ?w ?r with _ => _ end] =>
      let E := fresh "Hchat" in destruct (chat_create w r) eqn:E; run_M
  | |- context [match strip ?c with _ => _ end] =>
      let E := fresh "Hstrip" in destruct (strip c) eqn:E; run_M
  | |- context [match clean_latex_output ?c with _ => _ end] =>
      let E := fresh "Hclean" in
      destruct (clean_latex_output c) as [[|? ?]|] eqn:E; run_M
  | |- context [match write_outcome ?w ?n ?t with _ => _ end] =>
      let E := fresh "Hwrite" in destruct (write_outcome w n t) eqn:E; run_M
  end.

Section OneImageAlways.
Variables (w : World) (name : pystr) (st : state).

(** The image is opened at most once, and exactly once when
    [process_single_image] returns. *)
Lemma process_single_image_reads :
  ∃ opened,
    reads (trace (final_state (process_single_image w name st)))
    = reads (trace st) ++ opened
    ∧ opened `prefix_of` [name]
    ∧ (∀ ok st', process_single_image w name st = Ret ok st' → opened = [name]).
Proof.
  all_cases; cbn [final_state trace extend];
    rewrite ?extend_extend; cbn [final_state trace extend app];
    first
      [ exists [name]; split_and!;
          [ rewrite ?reads_app; cbn; by rewrite ?app_nil_r, <- ?app_assoc
          | done | done ]
      | exists []; split_and!;
          [ by rewrite app_nil_r | apply prefix_nil | done ] ].
Qed.

(** Whatever happens, no file of [codes/] other than the output file of the
    image is touched. *)
Lemma process_single_image_frame (other : pystr) :
  other ≠ path_stem name ++ py ".tex" →
  codes (final_state (process_single_image w name st)) !! other
  = codes st !! other.
Proof.
  intros Hne. all_cases; cbn [final_state codes extend]; try done;
    by rewrite lookup_insert_ne.
Qed.

(** A result [True] means that the cleaned text was written and the check
    mark printed. *)
Lemma process_single_image_Ret_true (st' : state) :
  process_single_image w name st = Ret true st' →
  ∃ body, body ≠ [] ∧ occurs fence body = false ∧ strip body = body
    ∧ codes st' = <[path_stem name ++ py ".tex" := body]> (codes st)
    ∧ writes (trace st')
      = writes (trace st) ++ [(path_stem name ++ py ".tex", body)].
Proof.
  all_cases; try done; intros [= <-];
    match goal with H : clean_latex_output _ = Some ?b |- _ =>
      exists b; destruct (clean_some _ _ H) as [H1 H2] end;
    (split_and!; [done..|]);
    cbn [trace extend]; rewrite !writes_app; cbn; by rewrite !app_nil_r.
Qed.
End OneImageAlways.

(** ** The batch *)

Section Batch.
Variable w : World.

Lemma process_loop_nil (successful failed : nat) (st : state) :
  process_loop w [] successful failed st = Ret (successful, failed) st.
Proof. done. Qed.

Lemma process_loop_cons (p : pystr) (rest : list pystr)
    (successful failed : nat) :
  process_loop w (p :: rest) successful failed =
    if startswith [dot] p then process_loop w rest successful failed
    else
      ok ← process_single_image w p;
      if ok : bool then process_loop w rest (S successful) failed
      else process_loop w rest successful (S failed).
Proof. done. Qed.

Lemma process_loop_hidden (p : pystr) (rest : list pystr)
    (successful failed : nat) (st : state) :
  ¬ visible p →
  process_loop w (p :: rest) successful failed st
  = process_loop w rest successful failed st.
Proof.
  unfold visible. intros H. rewrite process_loop_cons.
  by destruct (startswith [dot] p).
Qed.

Lemma process_loop_visible (p : pystr) (rest : list pystr)
    (successful failed : nat) (st : state) :
  visible p →
  process_loop w (p :: rest) successful failed st =
    match process_single_image w p st with
    | Ret true st' => process_loop w rest (S successful) failed st'
    | Ret false st' => process_loop w rest successful (S failed) st'
    | Raise e st' => Raise e st'
    end.
Proof.
  unfold visible. intros H. rewrite process_loop_cons, H.
  unfold mbind, M_bind. by destruct (process_single_image w p st) as [[]|].
Qed.

(** Each image that is not skipped adds one to exactly one counter. *)
Lemma process_loop_counters (paths : list pystr) :
  ∀ (successful failed : nat) (st : state) (s' f' : nat) (st' : state),
  process_loop w paths successful failed st = Ret (s', f') st' →
  (s' + f' = successful + failed + length (filter visible paths))%nat.
Proof.
  induction paths as [|p rest IH]; intros s f st s' f' st'.
  - rewrite process_loop_nil. intros [= <- <- <-]. simpl. lia.
  - rewrite filter_cons. destruct (decide (visible p)) as [Hv|Hv].
    + rewrite process_loop_visible by done.
      destruct (process_single_image w p st) as [[] st1|]; [| |done];
        intros H%IH; simpl; lia.
    + rewrite process_loop_hidden by done. apply IH.
Qed.

(** The images are opened in the order of the list; a run that returns has
    opened every image that is not skipped. *)
Lemma process_loop_reads (paths : list pystr) :
  ∀ (successful failed : nat) (st : state),
  let o := process_loop w paths successful failed st in
  ∃ done_, reads (trace (final_state o)) = reads (trace st) ++ done_
           ∧ done_ `prefix_of` filter visible paths
           ∧ (∀ r st', o = Ret r st' → done_ = filter visible paths).
Proof.
  induction paths as [|p rest IH]; intros s f st; cbv zeta.
  - rewrite process_loop_nil. exists []. simpl. by rewrite app_nil_r.
  - rewrite filter_cons. destruct (decide (visible p)) as [Hv|Hv].
    + rewrite process_loop_visible by done.
      destruct (process_single_image_reads w p st) as (k & Hr & Hk & Hret).
      destruct (process_single_image w p st) as [[] st1|e st1]; simpl in Hr.
      * rewrite (Hret _ _ eq_refl) in Hr.
        destruct (IH (S s) f st1) as (k' & H1 & H2 & H3).
        exists (p :: k'). rewrite H1, Hr, <- app_assoc.
        split_and!; [done|by apply prefix_cons|].
        intros r st' H. f_equal. eauto.
      * rewrite (Hret _ _ eq_refl) in Hr.
        destruct (IH s (S f) st1) as (k' & H1 & H2 & H3).
        exists (p :: k'). rewrite H1, Hr, <- app_assoc.
        split_and!; [done|by apply prefix_cons|].
        intros r st' H. f_equal. eauto.
      * exists k. simpl. split_and!; [done| |done].
        etrans; [done|]. apply prefix_cons, prefix_nil.
    + rewrite process_loop_hidden by done. apply IH.
Qed.

Lemma process_all_images_missing (st : state) :
  images_exists w = false →
  process_all_images w st =
    Ret tt (extend st [Print (py "Error: Images directory 'images' not found!")]).
Proof.
  intros H. unfold process_all_images. rewrite H. by apply print_ok.
Qed.

Lemma process_all_images_nothing (st : state) :
  images_exists w = true → image_files w = [] →
  process_all_images w st =
    Ret tt (extend st
              [Print (py "No supported image files found in images directory!")]).
Proof.
  intros H1 H2. unfold process_all_images. rewrite H1, H2. by apply print_ok.
Qed.

(** The batch when the console has every character. *)
Lemma process_all_images_batch (st : state) :
  console_complete w →
  images_exists w = true → image_files w ≠ [] →
  process_all_images w st =
    match process_loop w (sorted (image_files w)) 0 0 (extend st (heading w)) with
    | Ret counters st' => Ret tt (extend st' (summary w counters))
    | Raise e st' => Raise e st'
    end.
Proof.
  intros Hc H1 H2. unfold process_all_images, heading, summary. rewrite H1.
  destruct (image_files w) as [|x l]; [done|].
  lazy beta iota zeta delta [negb mbind M_bind].
  rewrite !print_ok by by apply encodable_complete.
  rewrite extend_extend. cbn [app].
  destruct (process_loop w _ _ _ _) as [counters st'|]; [|done].
  rewrite !print_ok by by apply encodable_complete.
  rewrite !extend_extend. by cbn [app].
Qed.

(** A batch that returns has printed its heading, run the loop to its end
    and printed its summary. *)
Lemma process_all_images_Ret (st st' : state) :
  images_exists w = true → image_files w ≠ [] →
  process_all_images w st = Ret tt st' →
  ∃ counters st1,
    process_loop w (sorted (image_files w)) 0 0 (extend st (heading w))
      = Ret counters st1
    ∧ st' = extend st1 (summary w counters).
Proof.
  intros H1 H2. unfold process_all_images, heading, summary. rewrite H1.
  destruct (image_files w) as [|x l]; [done|].
  lazy beta iota zeta delta [negb mbind M_bind]. unfold print.
  destruct (encodable w _); [|done].
  destruct (encodable w _); [|done].
  rewrite extend_extend. cbn [app].
  destruct (process_loop w _ _ _ _) as [counters st1|]; [|done].
  repeat (destruct (encodable w _); [|done]).
  intros [= <-]. exists counters, st1. split; [done|].
  rewrite !extend_extend. by cbn [app].
Qed.
End Batch.
(** * The sanitizer: fenced responses and repeated application *)

(** C2 (as amended).  Take a response that is an opening fence, a text
    without three consecutive backticks, and a closing fence.  When the
    opening fence is followed by [latex] (and then a newline or not), or is
    bare and followed by a newline, [clean_latex_output] returns the text
    with its surrounding whitespace trimmed.  When the fence is bare and the
    response nowhere reads as three backticks followed by [latex], it
    returns all that stands between the two fences, trimmed. *)
Theorem C2_clean_latex_fenced (body : pystr) :
  occurs fence body = false →
  clean_latex_output (Some (fence_latex ++ body ++ fence)) = Some (strip body)
  ∧ clean_latex_output (Some (fence_latex ++ newline :: body ++ fence))
    = Some (strip body)
  ∧ clean_latex_output (Some (fence ++ newline :: body ++ fence))
    = Some (strip body)
  ∧ (occurs fence_latex (fence ++ body ++ fence) = false →
     clean_latex_output (Some (fence ++ body ++ fence)) = Some (strip body)).
Proof.
  intros Hb. repeat split.
  - change (fence_latex ++ body ++ fence) with (96 :: tail fence_latex ++ body ++ fence).
    rewrite clean_unfold.
    change (96 :: tail fence_latex ++ body ++ fence) with (fence_latex ++ body ++ fence).
    rewrite sub_from_match by done. rewrite drop_newline_closing.
    rewrite (sub_from_absent fence_latex)
      by (apply fence_latex_closing, occurs_drop_newline, Hb).
    rewrite sub_fence_closing by (apply occurs_drop_newline, Hb).
    by rewrite strip_drop_newline.
  - change (fence_latex ++ newline :: body ++ fence)
      with (96 :: tail fence_latex ++ newline :: body ++ fence).
    rewrite clean_unfold.
    change (96 :: tail fence_latex ++ newline :: body ++ fence)
      with (fence_latex ++ newline :: body ++ fence).
    rewrite sub_from_match by done.
    change (drop_newline (newline :: body ++ fence)) with (body ++ fence).
    rewrite (sub_from_absent fence_latex) by (apply fence_latex_closing, Hb).
    by rewrite sub_fence_closing.
  - change (fence ++ newline :: body ++ fence)
      with (96 :: tail fence ++ newline :: body ++ fence).
    rewrite clean_unfold.
    change (96 :: tail fence ++ newline :: body ++ fence)
      with (fence ++ newline :: body ++ fence).
    rewrite (sub_from_absent fence_latex).
    + rewrite sub_from_match by done.
      change (drop_newline (newline :: body ++ fence)) with (body ++ fence).
      by rewrite sub_fence_closing.
    + pose proof (fence_latex_closing body Hb) as H.
      unfold fence at 1. simpl app. rewrite !occurs_cons, H.
      unfold fence_latex, newline. by rewrite !startswith_cons.
  - intros Hl.
    change (fence ++ body ++ fence) with (96 :: tail fence ++ body ++ fence).
    rewrite clean_unfold.
    change (96 :: tail fence ++ body ++ fence) with (fence ++ body ++ fence).
    rewrite (sub_from_absent fence_latex) by done.
    rewrite sub_from_match by done. rewrite drop_newline_closing.
    rewrite sub_fence_closing by (apply occurs_drop_newline, Hb).
    by rewrite strip_drop_newline.
Qed.

Lemma C2_clean_latex_fenced_witness :
  occurs fence (py "\State x") = false
  ∧ clean_latex_output (Some (fence_latex ++ newline :: py "\State x" ++ fence))
    = Some (strip (py "\State x")).
Proof.
  split; [reflexivity|].
  exact (proj1 (proj2 (C2_clean_latex_fenced (py "\State x") eq_refl))).
Defined.

(** C2 as stated fails in three ways.  With another language tag the fence
    markers go but the tag stays at the head of the result.  Three backticks
    inside the text are deleted like a fence, so the text is not left
    untouched.  And after a bare fence, a text that begins with two backticks
    and [latex] loses that word. *)
Lemma C2_counterexample :
  clean_latex_output
    (Some (fence ++ py "python" ++ newline :: py "x" ++ newline :: fence))
  = Some (py "python" ++ newline :: py "x")
  ∧ clean_latex_output
      (Some (fence_latex ++ newline :: py "a```b" ++ newline :: fence))
    = Some (py "ab")
  ∧ clean_latex_output (Some (fence ++ py "``latex" ++ fence))
    = Some (py "``").
Proof. split_and!; by vm_compute. Qed.

(** C5 (as amended).  Applying [clean_latex_output] to its own result
    changes nothing when that result is a non-empty string; when the result
    is the empty string or [None], the second application returns [None]. *)
Theorem C5_clean_latex_twice (s : option pystr) :
  clean_latex_output (clean_latex_output s) =
    if truthy (clean_latex_output s) then clean_latex_output s else None.
Proof.
  destruct (clean_latex_output s) as [r|] eqn:E; [|done].
  apply clean_some in E as [Hf Hs].
  destruct r as [|c r]; [done|]. simpl truthy. cbv iota.
  by apply clean_fixed.
Qed.

(** C5 as stated fails: a non-empty input made of a fence only is cleaned to
    the empty string, and cleaning the empty string gives [None]. *)
Lemma C5_counterexample :
  py "```" ≠ []
  ∧ clean_latex_output (clean_latex_output (Some (py "```")))
    ≠ clean_latex_output (Some (py "```")).
Proof. split; [done | vm_compute; discriminate]. Qed.

(** * Discovery and the order of the batch *)

Lemma sample_world_console (key : option pystr) (dir_exists : bool)
    (entries unreadable : list pystr) (reply : request → pystr + pystr) :
  console_complete (sample_world key dir_exists entries unreadable reply).
Proof. by intros c. Qed.

(** C3, at a failing input.  An upper-case extension: the name lowers to a recognised suffix, as
    [get_image_mime_type] would see it, but no pattern of the discovery loop
    matches it. *)
Theorem C3_upper_case_extension_not_discovered :
  let w := sample_world (Some (py "key")) true [py "alg.PNG"] [] echo_reply in
  lower (path_suffix (py "alg.PNG")) ∈ supported_formats
  ∧ get_image_mime_type (py "alg.PNG") = py "image/png"
  ∧ image_files w = []
  ∧ process_all_images w (initial ∅) =
      Ret tt (extend (initial ∅)
                [Print (py "No supported image files found in images directory!")]).
Proof.
  cbv zeta. split_and!.
  - apply (bool_decide_unpack _). by vm_compute.
  - by vm_compute.
  - by vm_compute.
  - by apply process_all_images_nothing.
Qed.

(** C1, at a failing input.  A file that cannot be read: the exception leaves [process_all_images],
    the images after it in sorted order are not processed and no summary is
    printed. *)
Theorem C1_unreadable_image_ends_batch :
  let w := sample_world (Some (py "key")) true [py "b.png"; py "a.png"]
             [py "a.png"] echo_reply in
  process_all_images w (initial ∅) =
    Raise (OSError (py "images/a.png"))
      (extend (initial ∅)
         [Print (py "Found 2 image files to process..."); Print (rule 50);
          Print (py "Processing: a.png"); ReadFile (py "a.png")]).
Proof.
  cbv zeta.
  rewrite process_all_images_batch
    by (apply sample_world_console || by vm_compute).
  replace (sorted (image_files _)) with [py "a.png"; py "b.png"] by (by vm_compute).
  rewrite process_loop_visible by (by vm_compute).
  rewrite process_single_image_unreadable by (by vm_compute).
  rewrite extend_extend. by vm_compute.
Qed.

(** C6, at a failing input.  In the same directory, [b.png] has a recognised extension and no leading
    dot, and it is never opened. *)
Theorem C6_image_after_unreadable_not_processed :
  let w := sample_world (Some (py "key")) true [py "b.png"; py "a.png"]
             [py "a.png"] echo_reply in
  py "b.png" ∈ image_files w ∧ visible (py "b.png")
  ∧ py "b.png" ∉ reads (trace (final_state (process_all_images w (initial ∅)))).
Proof.
  cbv zeta. split_and!.
  - apply (bool_decide_unpack _). by vm_compute.
  - by vm_compute.
  - rewrite process_all_images_batch
      by (apply sample_world_console || by vm_compute).
    replace (sorted (image_files _)) with [py "a.png"; py "b.png"] by (by vm_compute).
    rewrite process_loop_visible by (by vm_compute).
    rewrite process_single_image_unreadable by (by vm_compute).
    apply (bool_decide_unpack _). by vm_compute.
Qed.

Lemma StronglySorted_filter {A} (R : relation A) (P : A → Prop)
    `{∀ x, Decision (P x)} (l : list A) :
  StronglySorted R l → StronglySorted R (filter P l).
Proof.
  induction 1 as [|x l Hs IH Hall]; [constructor|].
  rewrite filter_cons. destruct (decide (P x)); [|done].
  constructor; [done|].
  apply Forall_forall. intros y [_ Hy]%list_elem_of_filter.
  by eapply Forall_forall in Hall.
Qed.

(** What the discovery and the loop do in the runs where no exception
    escapes: every discovered image that is not skipped is opened exactly
    once, in sorted order. *)
Lemma process_all_images_reads (w : World) (st st' : state) :
  formats_order w ≡ₚ supported_formats →
  NoDup (images_entries w) →
  images_exists w = true →
  process_all_images w st = Ret tt st' →
  ∃ opened,
    reads (trace st') = reads (trace st) ++ opened
    ∧ StronglySorted path_le opened ∧ NoDup opened
    ∧ ∀ name, name ∈ opened ↔
        name ∈ images_entries w ∧ visible name
        ∧ path_suffix name ∈ supported_formats.
Proof.
  intros Ho Hnd He Hrun.
  destruct (decide (image_files w = [])) as [Hnil|Hne].
  - rewrite process_all_images_nothing in Hrun by done.
    injection Hrun as <-. exists []. split_and!.
    + rewrite reads_extend. change (reads [Print _]) with (@nil pystr).
      by rewrite app_nil_r.
    + constructor.
    + constructor.
    + intros name. rewrite elem_of_nil. split; [done|].
      intros (H1 & H2 & H3). apply visible_extension in H3; [|done].
      assert (name ∈ image_files w) as Hin by by apply elem_of_image_files.
      rewrite Hnil in Hin. by apply elem_of_nil in Hin.
  - apply process_all_images_Ret in Hrun as (counters & st1 & E & ->); [|done..].
    destruct (process_loop_reads w (sorted (image_files w)) 0 0
                (extend st (heading w))) as (opened & H1 & H2 & H3).
    cbv zeta in H1, H3. rewrite E in H1. rewrite (H3 _ _ E) in H1.
    cbn [final_state] in H1.
    exists (filter visible (sorted (image_files w))). split_and!.
    + rewrite reads_extend, H1, reads_extend.
      change (reads (summary w counters)) with (@nil pystr).
      change (reads (heading w)) with (@nil pystr).
      by rewrite !app_nil_r.
    + apply StronglySorted_filter, sorted_StronglySorted.
    + apply NoDup_filter. rewrite sorted_Permutation. by apply image_files_NoDup.
    + intros name. rewrite list_elem_of_filter, sorted_Permutation.
      rewrite elem_of_image_files by done. split.
      * intros (Hv & Hin & Hs). split_and!; [done..|]. by apply visible_extension.
      * intros (Hin & Hv & Hs). split_and!; [done..|]. by apply visible_extension.
Qed.

(** * The batch: counters, missing directory, missing key *)

(** C10.  When no exception escapes the loop, the two counters printed in the
    summary add up to the number of discovered images whose name does not
    begin with a dot. *)
Theorem C10_counters_sum (w : World) (st st' : state) :
  images_exists w = true → image_files w ≠ [] →
  process_all_images w st = Ret tt st' →
  ∃ (successful failed : nat) (st1 : state),
    process_loop w (sorted (image_files w)) 0 0 (extend st (heading w))
      = Ret (successful, failed) st1
    ∧ st' = extend st1 (summary w (successful, failed))
    ∧ (successful + failed = length (filter visible (image_files w)))%nat.
Proof.
  intros He Hne Hrun.
  apply process_all_images_Ret in Hrun as ([s f] & st1 & E & ->); [|done..].
  exists s, f, st1. split_and!; [done..|].
  apply process_loop_counters in E. rewrite E. simpl.
  apply Permutation_length. by rewrite sorted_Permutation.
Qed.

Lemma C10_counters_sum_witness :
  let w := sample_world (Some (py "key")) true
             [py "b.png"; py ".hidden.png"; py "a.gif"] [] echo_reply in
  ∃ (successful failed : nat) (st1 : state),
    process_loop w (sorted (image_files w)) 0 0 (extend (initial ∅) (heading w))
      = Ret (successful, failed) st1
    ∧ final_state (process_all_images w (initial ∅))
      = extend st1 (summary w (successful, failed))
    ∧ (successful + failed = length (filter visible (image_files w)))%nat.
Proof.
  cbv zeta.
  apply (C10_counters_sum
           (sample_world (Some (py "key")) true
              [py "b.png"; py ".hidden.png"; py "a.gif"] [] echo_reply)
           (initial ∅)).
  - reflexivity.
  - by vm_compute.
  - by vm_compute.
Defined.

(** C9.  When [images/] does not exist, [process_all_images] prints the
    directory error and returns: nothing else happens.  When the directory
    exists and no entry matches, it prints another message. *)
Theorem C9_missing_directory (w : World) (st : state) :
  (images_exists w = false →
   process_all_images w st =
     Ret tt (extend st [Print (py "Error: Images directory 'images' not found!")]))
  ∧ (images_exists w = true → image_files w = [] →
     process_all_images w st =
       Ret tt (extend st
                 [Print (py "No supported image files found in images directory!")]))
  ∧ py "Error: Images directory 'images' not found!"
    ≠ py "No supported image files found in images directory!".
Proof.
  split_and!.
  - apply process_all_images_missing.
  - apply process_all_images_nothing.
  - by vm_compute.
Qed.

Lemma C9_missing_directory_witness :
  process_all_images
    (sample_world (Some (py "key")) false [py "a.png"] [] echo_reply) (initial ∅)
  = Ret tt (extend (initial ∅)
              [Print (py "Error: Images directory 'images' not found!")])
  ∧ process_all_images
      (sample_world (Some (py "key")) true [py "notes.txt"] [] echo_reply)
      (initial ∅)
    = Ret tt (extend (initial ∅)
                [Print (py "No supported image files found in images directory!")]).
Proof.
  split.
  - apply (proj1 (C9_missing_directory _ _)). reflexivity.
  - apply (proj1 (proj2 (C9_missing_directory _ _))); reflexivity.
Defined.

(** C8.  When the key is not set, [main] prints its banner and the two lines
    asking for the key, and returns: no file is opened and no request is
    sent. *)
Theorem C8_missing_key (w : World) (st : state) :
  getenv_api_key w = None →
  ∃ st', main w st = Ret tt st'
    ∧ st' = extend st
        [Print (py "Algorithm Image to LaTeX Converter"); Print (rule 40);
         Print (py "Error: Please set your OpenAI API key as environment variable:");
         Print (py "export OPENAI_API_KEY='your-api-key-here'")]
    ∧ reads (trace st') = reads (trace st)
    ∧ requests (trace st') = requests (trace st)
    ∧ codes st' = codes st.
Proof.
  intros H. eexists. split_and!.
  - unfold main. rewrite H.
    lazy beta iota zeta delta [negb truthy mbind M_bind].
    rewrite !print_ok by reflexivity.
    rewrite !extend_extend. cbn [app]. reflexivity.
  - reflexivity.
  - rewrite reads_extend. change (reads [_; _; _; _]) with (@nil pystr).
    by rewrite app_nil_r.
  - unfold extend. cbn [trace]. rewrite requests_app.
    change (requests [_; _; _; _]) with (@nil request). by rewrite app_nil_r.
  - reflexivity.
Qed.

Lemma C8_missing_key_witness :
  let w := sample_world None true [py "a.png"] [] echo_reply in
  ∃ st', main w (initial ∅) = Ret tt st'
    ∧ st' = extend (initial ∅)
        [Print (py "Algorithm Image to LaTeX Converter"); Print (rule 40);
         Print (py "Error: Please set your OpenAI API key as environment variable:");
         Print (py "export OPENAI_API_KEY='your-api-key-here'")]
    ∧ reads (trace st') = reads (trace (initial ∅))
    ∧ requests (trace st') = requests (trace (initial ∅))
    ∧ codes st' = codes (initial ∅).
Proof.
  cbv zeta.
  apply (C8_missing_key (sample_world None true [py "a.png"] [] echo_reply)).
  reflexivity.
Defined.

(** * One item without usable content *)

Lemma partial_writes_app (a b : list event) :
  partial_writes (a ++ b) = partial_writes a ++ partial_writes b.
Proof. apply omap_app. Qed.





(** * Two images with one base name *)

(** C4.  With [alg1.png], [alg1.jpg] and [notes.txt] in [images/], the loop
    runs over [alg1.jpg] then [alg1.png].  When both are read, both
    responses have content, both writes succeed and the console prints every
    line, both are saved as [alg1.tex], and at the end [codes/], empty at the
    start, holds that one file with the text obtained for [alg1.png]. *)
Theorem C4_same_stem_overwrites (w : World)
    (bytes_jpg bytes_png : list N) (c_jpg c_png body_jpg body_png : pystr) :
  images_exists w = true →
  images_entries w ≡ₚ [py "alg1.png"; py "alg1.jpg"; py "notes.txt"] →
  formats_order w ≡ₚ supported_formats →
  console_complete w →
  read_bytes w (py "alg1.jpg") = Some bytes_jpg →
  read_bytes w (py "alg1.png") = Some bytes_png →
  chat_create w (request_of (py "alg1.jpg") bytes_jpg) = inl c_jpg →
  chat_create w (request_of (py "alg1.png") bytes_png) = inl c_png →
  clean_latex_output (Some (strip c_jpg)) = Some body_jpg → body_jpg ≠ [] →
  clean_latex_output (Some (strip c_png)) = Some body_png → body_png ≠ [] →
  write_outcome w (py "alg1.tex") body_jpg = Written →
  write_outcome w (py "alg1.tex") body_png = Written →
  sorted (image_files w) = [py "alg1.jpg"; py "alg1.png"]
  ∧ ∃ st', process_all_images w (initial ∅) = Ret tt st'
      ∧ writes (trace st')
        = [(py "alg1.tex", body_jpg); (py "alg1.tex", body_png)]
      ∧ partial_writes (trace st') = []
      ∧ codes st' = {[ py "alg1.tex" := body_png ]}.
Proof.
  intros He Hent Hord Hcon Hr1 Hr2 Hc1 Hc2 Hb1 Hn1 Hb2 Hn2 Hw1 Hw2.
  assert (sorted (image_files w) = [py "alg1.jpg"; py "alg1.png"]) as Hsorted.
  { apply sorted_unique.
    - apply (bool_decide_unpack _). by vm_compute.
    - rewrite (image_files_Permutation w _ Hord Hent).
      replace (_ ≫= _) with [py "alg1.png"; py "alg1.jpg"] by (by vm_compute).
      apply Permutation_swap. }
  split; [done|].
  assert (image_files w ≠ []) as Hne.
  { intros Hnil. rewrite Hnil in Hsorted. by vm_compute in Hsorted. }
  rewrite process_all_images_batch, Hsorted by done.
  rewrite process_loop_visible by (by vm_compute).
  change (py "alg1.tex") with (path_stem (py "alg1.jpg") ++ py ".tex") in Hw1.
  rewrite (process_single_image_saved w _ _ bytes_jpg c_jpg body_jpg)
    by (done || by apply encodable_complete).
  rewrite process_loop_visible by (by vm_compute).
  change (py "alg1.tex") with (path_stem (py "alg1.png") ++ py ".tex") in Hw2.
  rewrite (process_single_image_saved w _ _ bytes_png c_png body_png)
    by (done || by apply encodable_complete).
  rewrite process_loop_nil. eexists. split; [reflexivity|].
  change (path_stem (py "alg1.jpg") ++ py ".tex") with (py "alg1.tex").
  change (path_stem (py "alg1.png") ++ py ".tex") with (py "alg1.tex").
  split_and!.
  - unfold extend, initial. cbn [trace codes]. rewrite !writes_app. reflexivity.
  - unfold extend, initial. cbn [trace codes]. rewrite !partial_writes_app.
    reflexivity.
  - unfold extend, initial. cbn [trace codes].
    by rewrite insert_insert_eq, insert_empty.
Qed.

Lemma C4_same_stem_overwrites_witness :
  let w := sample_world (Some (py "key")) true
             [py "alg1.png"; py "alg1.jpg"; py "notes.txt"] [] echo_reply in
  let body_jpg := image_url (request_of (py "alg1.jpg") (py "alg1.jpg")) in
  let body_png := image_url (request_of (py "alg1.png") (py "alg1.png")) in
  sorted (image_files w) = [py "alg1.jpg"; py "alg1.png"]
  ∧ ∃ st', process_all_images w (initial ∅) = Ret tt st'
      ∧ writes (trace st')
        = [(py "alg1.tex", body_jpg); (py "alg1.tex", body_png)]
      ∧ partial_writes (trace st') = []
      ∧ codes st' = {[ py "alg1.tex" := body_png ]}.
Proof.
  cbv zeta.
  apply (C4_same_stem_overwrites
           (sample_world (Some (py "key")) true
              [py "alg1.png"; py "alg1.jpg"; py "notes.txt"] [] echo_reply)
           (py "alg1.jpg") (py "alg1.png")
           (fenced (image_url (request_of (py "alg1.jpg") (py "alg1.jpg"))))
           (fenced (image_url (request_of (py "alg1.png") (py "alg1.png"))))).
  - reflexivity.
  - reflexivity.
  - reflexivity.
  - intros c. reflexivity.
  - reflexivity.
  - reflexivity.
  - reflexivity.
  - reflexivity.
  - by vm_compute.
  - by vm_compute.
  - by vm_compute.
  - by vm_compute.
  - reflexivity.
  - reflexivity.
Defined.
(** * Further properties of the sanitizer *)

(** Whatever the response, the text [clean_latex_output] returns holds no
    three consecutive backticks and has no whitespace at either end, and it
    returns a text only for a non-empty response. *)
Theorem clean_latex_output_result (s : option pystr) (r : pystr) :
  clean_latex_output s = Some r →
  occurs fence r = false ∧ strip r = r ∧ truthy s = true.
Proof.
  intros H. destruct (clean_some s r H) as [H1 H2]. split_and!; [done..|].
  unfold clean_latex_output in H. by destruct (truthy s).
Qed.

Lemma clean_latex_output_result_witness :
  clean_latex_output (Some (fenced (py "  \State x  "))) = Some (py "\State x")
  ∧ occurs fence (py "\State x") = false ∧ strip (py "\State x") = py "\State x"
  ∧ truthy (Some (fenced (py "  \State x  "))) = true.
Proof.
  split; [by vm_compute|].
  apply (clean_latex_output_result (Some (fenced (py "  \State x  ")))).
  by vm_compute.
Defined.

(** A non-empty response without three consecutive backticks is only
    trimmed. *)
Theorem clean_latex_output_plain (s : pystr) :
  s ≠ [] → occurs fence s = false →
  clean_latex_output (Some s) = Some (strip s).
Proof.
  intros Hne Hf. destruct s as [|c s]; [done|]. rewrite clean_unfold.
  rewrite (sub_from_absent fence_latex) by by apply fence_latex_absent.
  by rewrite (sub_from_absent fence).
Qed.

Lemma clean_latex_output_plain_witness :
  py " \State `x` " ≠ [] ∧ occurs fence (py " \State `x` ") = false
  ∧ clean_latex_output (Some (py " \State `x` ")) = Some (strip (py " \State `x` ")).
Proof.
  split; [done|]. split; [reflexivity|].
  apply clean_latex_output_plain; [done | reflexivity].
Defined.

(** * The encoder *)

Lemma b64char_alphabet (i : N) : b64_alphabet (b64char i) = true.
Proof.
  unfold b64char, b64_alphabet, pad.
  destruct (N.ltb_spec i 26); [|destruct (N.ltb_spec i 52);
    [|destruct (N.ltb_spec i 62); [|destruct (N.eqb_spec i 62)]]];
  repeat match goal with
  | |- context [(?a <=? ?b)] => destruct (N.leb_spec a b)
  | |- context [(?a =? ?b)] => destruct (N.eqb_spec a b)
  end; simpl; try done; lia.
Qed.

Lemma b64val_b64char (i : N) : i < 64 → b64val (b64char i) = i.
Proof.
  intros Hi. unfold b64char, b64val.
  destruct (N.ltb_spec i 26); [|destruct (N.ltb_spec i 52);
    [|destruct (N.ltb_spec i 62); [|destruct (N.eqb_spec i 62)]]];
  repeat match goal with
  | |- context [(?a <=? ?b)] => destruct (N.leb_spec a b)
  | |- context [(?a =? ?b)] => destruct (N.eqb_spec a b)
  end; simpl; try done; lia.
Qed.

Lemma b64char_not_pad (i : N) : (b64char i =? pad) = false.
Proof.
  apply N.eqb_neq. unfold b64char, pad.
  destruct (N.ltb_spec i 26); [|destruct (N.ltb_spec i 52);
    [|destruct (N.ltb_spec i 62); [|destruct (N.eqb_spec i 62)]]]; lia.
Qed.

(** Induction on a list three elements at a time. *)
Lemma list_ind3 {A} (P : list A → Prop) :
  P [] → (∀ a, P [a]) → (∀ a b, P [a; b]) →
  (∀ a b c rest, P rest → P (a :: b :: c :: rest)) →
  ∀ l, P l.
Proof.
  intros H0 H1 H2 H3 l.
  assert (P l ∧ (∀ a, P (a :: l)) ∧ (∀ a b, P (a :: b :: l))) as [H _].
  { induction l as [|x l (IH0 & IH1 & IH2)]; [by split_and!|].
    split_and!; [apply IH1 | intros; apply IH2 | intros; by apply H3]. }
  done.
Qed.

Lemma b64encode_group (a b c : N) (rest : list N) :
  b64encode (a :: b :: c :: rest) =
    b64char (a / 4) :: b64char ((a mod 4) * 16 + b / 16)
    :: b64char ((b mod 16) * 4 + c / 64) :: b64char (c mod 64)
    :: b64encode rest.
Proof. done. Qed.

(** The payload has four characters for every group of three bytes, the
    last group being padded. *)
Theorem b64encode_length (bytes : list N) :
  length (b64encode bytes) = (4 * ((length bytes + 2) / 3))%nat.
Proof.
  induction bytes as [|a|a b|a b c rest IH] using list_ind3; try done.
  rewrite b64encode_group. cbn [length]. rewrite IH.
  replace (S (S (S (length rest))) + 2)%nat with (1 * 3 + (length rest + 2))%nat by lia.
  rewrite Nat.div_add_l by done. lia.
Qed.

(** The payload is made of the letters, the digits, [+], [/] and [=] only:
    it can stand in the data URL as it is. *)
Theorem b64encode_alphabet (bytes : list N) :
  Forall (λ c, b64_alphabet c = true) (b64encode bytes).
Proof.
  induction bytes as [|a|a b|a b c rest IH] using list_ind3;
    rewrite ?b64encode_group; unfold b64encode;
    repeat constructor; try apply b64char_alphabet; done.
Qed.

Ltac div_mod_lia :=
  repeat match goal with
  | |- context [?a / ?b] =>
      let q := fresh "q" in let r := fresh "r" in
      pose proof (N.div_mod a b ltac:(lia));
      pose proof (N.mod_lt a b ltac:(lia));
      set (q := a / b) in *; set (r := a mod b) in *; clearbody q r
  | |- context [?a mod ?b] =>
      let q := fresh "q" in let r := fresh "r" in
      pose proof (N.div_mod a b ltac:(lia));
      pose proof (N.mod_lt a b ltac:(lia));
      set (q := a / b) in *; set (r := a mod b) in *; clearbody q r
  end; lia.

Lemma sextet_1 (a : N) : a < 256 → a / 4 < 64.
Proof. intros. div_mod_lia. Qed.

Lemma sextet_2 (a b : N) : b < 256 → (a mod 4) * 16 + b / 16 < 64.
Proof. intros. div_mod_lia. Qed.

Lemma sextet_3 (b c : N) : c < 256 → (b mod 16) * 4 + c / 64 < 64.
Proof. intros. div_mod_lia. Qed.

Lemma sextet_4 (c : N) : c mod 64 < 64.
Proof. div_mod_lia. Qed.

Lemma octet_1 (a b : N) :
  b < 256 → (a / 4) * 4 + ((a mod 4) * 16 + b / 16) / 16 = a.
Proof.
  intros Hb.
  assert (((a mod 4) * 16 + b / 16) / 16 = a mod 4) as ->.
  { rewrite N.div_add_l by done. rewrite (N.div_small (b / 16)); [lia|]. div_mod_lia. }
  div_mod_lia.
Qed.

Lemma octet_2 (a b c : N) :
  b < 256 → c < 256 →
  (((a mod 4) * 16 + b / 16) mod 16) * 16 + ((b mod 16) * 4 + c / 64) / 4 = b.
Proof.
  intros Hb Hc.
  assert (((a mod 4) * 16 + b / 16) mod 16 = b / 16) as ->.
  { rewrite N.add_comm, N.Div0.mod_add. apply N.mod_small. div_mod_lia. }
  assert (((b mod 16) * 4 + c / 64) / 4 = b mod 16) as ->.
  { rewrite N.div_add_l by done. rewrite (N.div_small (c / 64)); [lia|]. div_mod_lia. }
  div_mod_lia.
Qed.

Lemma octet_3 (b c : N) :
  (((b mod 16) * 4 + c / 64) mod 4) * 64 + c mod 64 = c ∨ 256 ≤ c.
Proof.
  destruct (N.lt_ge_cases c 256) as [Hc|Hc]; [left | by right].
  assert (((b mod 16) * 4 + c / 64) mod 4 = c / 64) as ->.
  { rewrite N.add_comm, N.Div0.mod_add. apply N.mod_small. div_mod_lia. }
  div_mod_lia.
Qed.

Lemma b64decode_b64encode (bytes : list N) :
  is_bytes bytes → b64decode (b64encode bytes) = bytes.
Proof.
  unfold is_bytes.
  induction bytes as [|a|a b|a b c rest IH] using list_ind3; intros Hb.
  - done.
  - apply Forall_cons in Hb as [Ha _].
    unfold b64encode, b64decode. rewrite N.eqb_refl.
    rewrite (b64val_b64char (a / 4)) by by apply sextet_1.
    rewrite (b64val_b64char (a mod 4 * 16)) by div_mod_lia.
    f_equal. rewrite N.div_mul by done. div_mod_lia.
  - apply Forall_cons in Hb as [Ha Hb]. apply Forall_cons in Hb as [Hb _].
    unfold b64encode, b64decode. rewrite b64char_not_pad, N.eqb_refl.
    rewrite (b64val_b64char (a / 4)) by by apply sextet_1.
    rewrite (b64val_b64char (a mod 4 * 16 + b / 16)) by by apply sextet_2.
    rewrite (b64val_b64char (b mod 16 * 4)) by div_mod_lia.
    f_equal; [by apply octet_1|]. f_equal.
    pose proof (octet_2 a b 0 Hb ltac:(lia)) as H.
    change (0 / 64) with 0 in H. by rewrite N.add_0_r in H.
  - apply Forall_cons in Hb as [Ha Hb]. apply Forall_cons in Hb as [Hb Hc].
    apply Forall_cons in Hc as [Hc Hrest].
    rewrite b64encode_group.
    change (b64decode (?c0 :: ?c1 :: ?c2 :: ?c3 :: ?r)) with
      (if c2 =? pad then [b64val c0 * 4 + b64val c1 / 16]
       else if c3 =? pad
            then [b64val c0 * 4 + b64val c1 / 16;
                  (b64val c1 mod 16) * 16 + b64val c2 / 4]
            else b64val c0 * 4 + b64val c1 / 16
                 :: (b64val c1 mod 16) * 16 + b64val c2 / 4
                 :: (b64val c2 mod 4) * 64 + b64val c3 :: b64decode r).
    rewrite !b64char_not_pad.
    rewrite !b64val_b64char
      by (by apply sextet_1 || by apply sextet_2 || by apply sextet_3
          || apply sextet_4).
    rewrite IH by done.
    f_equal; [by apply octet_1|]. f_equal; [by apply octet_2|]. f_equal.
    destruct (octet_3 b c) as [H|H]; [done | lia].
Qed.

(** Two images with different bytes never give the same payload. *)
Theorem b64encode_injective (bytes1 bytes2 : list N) :
  is_bytes bytes1 → is_bytes bytes2 →
  b64encode bytes1 = b64encode bytes2 → bytes1 = bytes2.
Proof.
  intros H1 H2 He.
  rewrite <- (b64decode_b64encode bytes1 H1), <- (b64decode_b64encode bytes2 H2).
  by rewrite He.
Qed.

Lemma b64encode_injective_witness :
  is_bytes [77; 97; 110] ∧ is_bytes [77; 97; 110]
  ∧ ([77; 97; 110] : list N) = [77; 97; 110].
Proof.
  assert (is_bytes [77; 97; 110]) as H by (repeat constructor).
  split_and!; [done..|].
  apply (b64encode_injective [77; 97; 110] [77; 97; 110]); [done..|reflexivity].
Defined.

(** * The MIME type *)

Lemma dict_get_default (d : list (pystr * pystr)) (key default : pystr) :
  key ∉ map fst d → dict_get d key default = default.
Proof.
  induction d as [|[k v] d IH]; [done|]. cbn [map fst dict_get].
  rewrite not_elem_of_cons. intros [Hne Hd].
  rewrite bool_decide_eq_false_2 by done. by apply IH.
Qed.

(** Whatever the name, the MIME type is one of the four image types; when
    the extension, lowered, is not a key of the table, and so when there is
    no extension, it is [image/png]. *)
Theorem get_image_mime_type_range (name : pystr) :
  get_image_mime_type name
  ∈ [py "image/png"; py "image/jpeg"; py "image/gif"; py "image/webp"]
  ∧ (lower (path_suffix name) ∉ map fst mime_types →
     get_image_mime_type name = py "image/png")
  ∧ (path_suffix name = [] → get_image_mime_type name = py "image/png").
Proof.
  split_and!.
  - unfold get_image_mime_type, mime_types, dict_get.
    repeat case_bool_decide; apply (bool_decide_unpack _); by vm_compute.
  - unfold get_image_mime_type. apply dict_get_default.
  - intros H. unfold get_image_mime_type. rewrite H. reflexivity.
Qed.

Lemma get_image_mime_type_range_witness :
  (lower (path_suffix (py "notes.TXT")) ∉ map fst mime_types)
  ∧ get_image_mime_type (py "notes.TXT") = py "image/png"
  ∧ path_suffix (py ".png") = []
  ∧ get_image_mime_type (py ".png") = py "image/png".
Proof.
  assert (lower (path_suffix (py "notes.TXT")) ∉ map fst mime_types) as H
    by (apply (bool_decide_unpack _); by vm_compute).
  split_and!.
  - exact H.
  - exact (proj1 (proj2 (get_image_mime_type_range (py "notes.TXT"))) H).
  - reflexivity.
  - exact (proj2 (proj2 (get_image_mime_type_range (py ".png"))) eq_refl).
Defined.

(** A discovered image that the loop does not skip gets the MIME type the
    table gives for its own extension; the fallback is not used. *)
Theorem get_image_mime_type_discovered (name suffix : pystr) :
  suffix ∈ supported_formats → visible name →
  endswith suffix name = true →
  (suffix, get_image_mime_type name) ∈ mime_types.
Proof.
  intros Hs Hv He. unfold get_image_mime_type.
  rewrite (path_suffix_supported name suffix Hs Hv He).
  revert Hs. unfold supported_formats. rewrite !elem_of_cons, elem_of_nil.
  intros [->|[->|[->|[->|[->|[]]]]]];
    apply (bool_decide_unpack _); by vm_compute.
Qed.

Lemma get_image_mime_type_discovered_witness :
  py ".jpeg" ∈ supported_formats ∧ visible (py "scan.v2.jpeg")
  ∧ (py ".jpeg", get_image_mime_type (py "scan.v2.jpeg")) ∈ mime_types
  ∧ get_image_mime_type (py "scan.v2.jpeg") = py "image/jpeg".
Proof.
  assert (py ".jpeg" ∈ supported_formats) as H
    by (apply (bool_decide_unpack _); by vm_compute).
  split_and!; [done | reflexivity | | by vm_compute].
  apply get_image_mime_type_discovered; [done | reflexivity | reflexivity].
Defined.

(** The name of a discovered image is its stem followed by its extension, so
    the output file is the name with the extension replaced by [.tex]. *)
Theorem path_stem_discovered (name suffix : pystr) :
  suffix ∈ supported_formats → visible name →
  endswith suffix name = true →
  path_stem name ++ suffix = name ∧ path_stem name ≠ [].
Proof.
  intros (Hr & Hd & Hl)%supported_formats_shape Hv [pre ->]%endswith_suffix.
  unfold path_stem. rewrite rfind_app, Hr, Nat.add_0_r.
  destruct pre as [|x pre].
  { unfold visible in Hv. simpl app in Hv. congruence. }
  rewrite length_app.
  replace (Nat.ltb 0 (length (x :: pre))) with true
    by (symmetry; apply Nat.ltb_lt; simpl; lia).
  replace (Nat.ltb (length (x :: pre)) (length (x :: pre) + length suffix - 1))
    with true by (symmetry; apply Nat.ltb_lt; simpl; lia).
  simpl andb. cbv iota. by rewrite take_app_length.
Qed.

Lemma path_stem_discovered_witness :
  py ".png" ∈ supported_formats ∧ visible (py "alg.1.png")
  ∧ path_stem (py "alg.1.png") ++ py ".png" = py "alg.1.png"
  ∧ path_stem (py "alg.1.png") ≠ [].
Proof.
  assert (py ".png" ∈ supported_formats) as H
    by (apply (bool_decide_unpack _); by vm_compute).
  split_and!; [done | reflexivity | |];
    apply (path_stem_discovered (py "alg.1.png") (py ".png"));
    done || reflexivity.
Defined.

(** * Further properties of one item *)

(** Once the image has been read, [analyze_algorithm_image] sends exactly
    one request, built from the MIME type and the payload of the image, and
    touches no file.  When the call succeeds it returns the stripped content.
    When the call fails it prints the error line and returns [None]; the
    [print] stands in the [except] branch, so if the console cannot encode
    the line the exception leaves the function. *)
Theorem analyze_algorithm_image_readable (w : World) (name : pystr)
    (bytes : list N) (st : state) :
  read_bytes w name = Some bytes →
  let req := request_of name bytes in
  let seen := extend st [ReadFile name; ChatRequest req] in
  let line msg :=
    py "Error analyzing image " ++ images_path name ++ py ": " ++ msg in
  image_url req
  = py "data:" ++ get_image_mime_type name ++ py ";base64," ++ b64encode bytes
  ∧ (∀ content, chat_create w req = inl content →
       analyze_algorithm_image w name st = Ret (Some (strip content)) seen)
  ∧ (∀ msg, chat_create w req = inr msg →
       analyze_algorithm_image w name st =
         if encodable w (line msg)
         then Ret None (extend seen [Print (line msg)])
         else Raise (UnicodeEncodeError (line msg)) seen).
Proof.
  intros Hr. cbv zeta. split_and!; [done| |].
  - intros content Hc. unfold analyze_algorithm_image, encode_image_to_base64.
    lazy beta iota zeta delta [emit raise mbind M_bind mret M_ret].
    rewrite Hr. fold (request_of name bytes). rewrite Hc.
    by rewrite extend_extend.
  - intros msg Hc. unfold analyze_algorithm_image, encode_image_to_base64.
    lazy beta iota zeta delta [emit raise mbind M_bind mret M_ret].
    rewrite Hr. fold (request_of name bytes). rewrite Hc.
    rewrite extend_extend. cbn [app]. unfold print.
    by destruct (encodable w _).
Qed.

Lemma analyze_algorithm_image_readable_witness :
  let w := sample_world (Some (py "key")) true [py "a.gif"] [] echo_reply in
  let req := request_of (py "a.gif") (py "a.gif") in
  let seen := extend (initial ∅) [ReadFile (py "a.gif"); ChatRequest req] in
  let line msg :=
    py "Error analyzing image " ++ images_path (py "a.gif") ++ py ": " ++ msg in
  image_url req
  = py "data:" ++ get_image_mime_type (py "a.gif") ++ py ";base64,"
    ++ b64encode (py "a.gif")
  ∧ (∀ content, chat_create w req = inl content →
       analyze_algorithm_image w (py "a.gif") (initial ∅)
       = Ret (Some (strip content)) seen)
  ∧ (∀ msg, chat_create w req = inr msg →
       analyze_algorithm_image w (py "a.gif") (initial ∅) =
         if encodable w (line msg)
         then Ret None (extend seen [Print (line msg)])
         else Raise (UnicodeEncodeError (line msg)) seen).
Proof.
  cbv zeta.
  apply (analyze_algorithm_image_readable
           (sample_world (Some (py "key")) true [py "a.gif"] [] echo_reply)).
  reflexivity.
Defined.




(** When [process_single_image] returns [True], it has written exactly one
    file, named after the stem of the image; the text written is not empty,
    holds no three consecutive backticks and has no whitespace at its ends. *)
Theorem process_single_image_true (w : World) (name : pystr) (st st' : state) :
  process_single_image w name st = Ret true st' →
  ∃ body, body ≠ [] ∧ occurs fence body = false ∧ strip body = body
    ∧ codes st' = <[path_stem name ++ py ".tex" := body]> (codes st)
    ∧ writes (trace st')
      = writes (trace st) ++ [(path_stem name ++ py ".tex", body)].
Proof. apply process_single_image_Ret_true. Qed.

Lemma process_single_image_true_witness :
  let w := sample_world (Some (py "key")) true [py "a.png"] [] echo_reply in
  let st' := final_state (process_single_image w (py "a.png") (initial ∅)) in
  ∃ body, body ≠ [] ∧ occurs fence body = false ∧ strip body = body
    ∧ codes st' = <[path_stem (py "a.png") ++ py ".tex" := body]> (codes (initial ∅))
    ∧ writes (trace st')
      = writes (trace (initial ∅)) ++ [(path_stem (py "a.png") ++ py ".tex", body)].
Proof.
  cbv zeta.
  apply (process_single_image_true
           (sample_world (Some (py "key")) true [py "a.png"] [] echo_reply)).
  by vm_compute.
Defined.

(** When [process_single_image] returns [False], no file of [codes/] other
    than the output file of the image has changed.  The output file itself
    is as before, unless a write failed after the file was opened (it then
    holds what the failed write left in it), or the text was written and the
    check-mark line could not be printed. *)
Theorem process_single_image_false (w : World) (name : pystr) (st st' : state) :
  process_single_image w name st = Ret false st' →
  let out := path_stem name ++ py ".tex" in
  (∀ other, other ≠ out → codes st' !! other = codes st !! other)
  ∧ (codes st' = codes st
     ∨ (∃ body partial msg,
          write_outcome w out body = WriteError partial msg
          ∧ codes st' = <[out := partial]> (codes st))
     ∨ (∃ body,
          write_outcome w out body = Written
          ∧ encodable w (check_mark ++ py " Saved: " ++ codes_path out) = false
          ∧ codes st' = <[out := body]> (codes st))).
Proof.
  intros H. cbv zeta. split.
  - intros other Hne.
    pose proof (process_single_image_frame w name st other Hne) as Hf.
    by rewrite H in Hf.
  - revert H. all_cases; try done; intros [= <-]; cbn [codes extend].
    all: first
      [ by left
      | right; left; by eexists _, _, _
      | right; right; by eexists _ ].
Qed.

Lemma process_single_image_false_witness :
  let w := writes_end_as (WriteError (py "\beg") (py "No space left on device"))
             (sample_world (Some (py "key")) true [py "a.png"] [] echo_reply) in
  let st' := final_state (process_single_image w (py "a.png") (initial ∅)) in
  let out := path_stem (py "a.png") ++ py ".tex" in
  (∀ other, other ≠ out → codes st' !! other = codes (initial ∅) !! other)
  ∧ (codes st' = codes (initial ∅)
     ∨ (∃ body partial msg,
          write_outcome w out body = WriteError partial msg
          ∧ codes st' = <[out := partial]> (codes (initial ∅)))
     ∨ (∃ body,
          write_outcome w out body = Written
          ∧ encodable w (check_mark ++ py " Saved: " ++ codes_path out) = false
          ∧ codes st' = <[out := body]> (codes (initial ∅)))).
Proof.
  cbv zeta.
  apply (process_single_image_false
           (writes_end_as (WriteError (py "\beg") (py "No space left on device"))
              (sample_world (Some (py "key")) true [py "a.png"] [] echo_reply))
           (py "a.png")).
  by vm_compute.
Defined.

(** * Further properties of the batch *)




(** The order in which the directory lists its entries and the order in
    which the set of suffixes is iterated do not matter: the loop runs over
    the same list. *)
Theorem sorted_image_files_order_independent (w1 w2 : World) :
  formats_order w1 ≡ₚ supported_formats →
  formats_order w2 ≡ₚ supported_formats →
  images_entries w1 ≡ₚ images_entries w2 →
  sorted (image_files w1) = sorted (image_files w2).
Proof.
  intros H1 H2 He. apply sorted_proper.
  rewrite (image_files_Permutation w1 (images_entries w2)) by done.
  by rewrite (image_files_Permutation w2 (images_entries w2)).
Qed.

Lemma sorted_image_files_order_independent_witness :
  sorted (image_files
            (sample_world None true [py "b.png"; py "a.jpg"; py "c.gif"] [] echo_reply))
  = sorted (image_files
              (sample_world None true [py "c.gif"; py "b.png"; py "a.jpg"] [] echo_reply)).
Proof.
  apply sorted_image_files_order_independent.
  - reflexivity.
  - reflexivity.
  - apply (bool_decide_unpack _). by vm_compute.
Defined.

Lemma process_all_images_reads_witness :
  let w := sample_world (Some (py "key")) true
             [py "b.png"; py ".hidden.png"; py "notes.txt"; py "a.gif"] []
             echo_reply in
  ∃ opened,
    reads (trace (final_state (process_all_images w (initial ∅))))
      = reads (trace (initial ∅)) ++ opened
    ∧ StronglySorted path_le opened ∧ NoDup opened
    ∧ ∀ name, name ∈ opened ↔
        name ∈ images_entries w ∧ visible name
        ∧ path_suffix name ∈ supported_formats.
Proof.
  cbv zeta.
  apply (process_all_images_reads
           (sample_world (Some (py "key")) true
              [py "b.png"; py ".hidden.png"; py "notes.txt"; py "a.gif"] []
              echo_reply)
           (initial ∅)).
  - reflexivity.
  - apply (bool_decide_unpack _). by vm_compute.
  - reflexivity.
  - by vm_compute.
Defined.

(** * Further properties of [main] *)

(** A key set to the empty string is handled like a missing key: [main]
    prints the same lines and stops before anything else. *)
Theorem main_empty_key (w : World) (st : state) :
  getenv_api_key w = Some [] →
  main w st =
    Ret tt
      (extend st
         [Print (py "Algorithm Image to LaTeX Converter"); Print (rule 40);
          Print (py "Error: Please set your OpenAI API key as environment variable:");
          Print (py "export OPENAI_API_KEY='your-api-key-here'")]).
Proof.
  intros H. unfold main. rewrite H.
  lazy beta iota zeta delta [negb truthy mbind M_bind].
  rewrite !print_ok by reflexivity.
  rewrite !extend_extend. by cbn [app].
Qed.

Lemma main_empty_key_witness :
  main (sample_world (Some []) true [py "a.png"] [] echo_reply) (initial ∅) =
    Ret tt
      (extend (initial ∅)
         [Print (py "Algorithm Image to LaTeX Converter"); Print (rule 40);
          Print (py "Error: Please set your OpenAI API key as environment variable:");
          Print (py "export OPENAI_API_KEY='your-api-key-here'")]).
Proof. apply main_empty_key. reflexivity. Defined.

(** With a key, [main] creates [codes/] before it looks at [images/]: when
    the input directory is missing the output directory has been created all
    the same, and the run ends normally with the directory error. *)
Theorem main_missing_directory (w : World) (st : state) :
  truthy (getenv_api_key w) = true →
  mkdir_raises w = false →
  images_exists w = false →
  main w st =
    Ret tt
      (extend st
         [Print (py "Algorithm Image to LaTeX Converter"); Print (rule 40);
          Mkdir;
          Print (py "Error: Images directory 'images' not found!")]).
Proof.
  intros Hk Hm He. unfold main, init. rewrite Hk.
  destruct (getenv_api_key w) as [key|]; [|done].
  lazy beta iota zeta delta [negb emit raise mbind M_bind mret M_ret].
  rewrite !print_ok by reflexivity.
  lazy beta iota zeta.
  rewrite Hm. rewrite process_all_images_missing by done.
  rewrite !extend_extend. by cbn [app].
Qed.

Lemma main_missing_directory_witness :
  main (sample_world (Some (py "key")) false [] [] echo_reply) (initial ∅) =
    Ret tt
      (extend (initial ∅)
         [Print (py "Algorithm Image to LaTeX Converter"); Print (rule 40);
          Mkdir;
          Print (py "Error: Images directory 'images' not found!")]).
Proof. apply main_missing_directory; reflexivity. Defined.
